(** * The Activity wire format of stream-go: encoder, decoder, feed references

    A shallow embedding of [activity.go]: [MarshalJSON], [UnmarshalJSON] and
    the [payload] helpers [String], [TimeStamp], [To], [to1D], [matchFeed],
    [matchFeedWithToken], together with the parts of Go's standard library
    they call ([strings.Split], [strings.ToLower], [regexp.MatchString] on the
    two patterns of the file, [json.Unmarshal] at the types the file uses,
    [json.Marshal] on the map the encoder builds, [time.Format] and
    [time.Parse] under the file's layout). *)

From stdpp Require Import gmap strings list fin_maps sorting.
From Stdlib Require Import ZArith Ascii String Permutation SpecFloat.

#[local] Set Warnings "-register-all".
#[local] Open Scope string_scope.

(** ** Outcomes of Go code that can panic

    Indexing a slice out of range panics in Go.  Code that indexes is written
    in the [outcome] monad, so that a panic is a value of the model and its
    absence is a theorem. *)

Inductive outcome (A : Type) : Type :=
| Panic
| Done (a : A).
Arguments Panic {A}.
Arguments Done {A} a.

#[global] Instance outcome_ret : MRet outcome := fun A a => Done a.
#[global] Instance outcome_bind : MBind outcome := fun A B f m =>
  match m with
  | Panic => Panic
  | Done a => f a
  end.

(** [l[i]] of Go: the element, or a run-time panic when [i] is out of range. *)
Definition index {A : Type} (l : list A) (i : nat) : outcome A :=
  match l !! i with
  | Some x => Done x
  | None => Panic
  end.

(** ** Strings

    Go strings are byte sequences; they are modelled by [string], a list of
    [ascii] bytes. *)

Fixpoint all_chars (p : ascii -> bool) (s : string) : bool :=
  match s with
  | "" => true
  | String c s' => p c && all_chars p s'
  end.

Definition is_not (sep : ascii) (c : ascii) : bool := negb (Ascii.eqb c sep).

(** [strings.Split(s, sep)] for a separator of one byte, the only kind
    [activity.go] passes: the pieces of [s] between the occurrences of [sep];
    a string without [sep] is returned as its single piece. *)
Fixpoint Split (s : string) (sep : ascii) : list string :=
  match s with
  | "" => [""]
  | String c s' =>
      if Ascii.eqb c sep then "" :: Split s' sep
      else match Split s' sep with
           | piece :: pieces => String c piece :: pieces
           | [] => [String c ""]
           end
  end.

(** The part of [s] before the first [sep] (all of [s] when it has none). *)
Fixpoint before (sep : ascii) (s : string) : string :=
  match s with
  | "" => ""
  | String c s' => if Ascii.eqb c sep then "" else String c (before sep s')
  end.

Definition lower_byte (c : ascii) : ascii :=
  let n := nat_of_ascii c in
  if Nat.leb 65 n && Nat.leb n 90 then ascii_of_nat (n + 32) else c.

(** [strings.ToLower(s)].  On ASCII strings Go lower-cases the bytes [A]-[Z],
    which is what [lower_byte] does.  On other strings Go maps every rune by
    [unicode.ToLower]; exactly two runes outside ASCII are sent to an ASCII
    letter: U+0130 (bytes 196 176) to [i] and U+212A (bytes 226 132 170) to
    [k].  They are mapped here; the other bytes above 127 are kept as they
    are, so that [ToLower s] is an ASCII string exactly when Go's result is,
    and then is that string.  The only use of the result in [activity.go], the
    comparison with ten ASCII names, is therefore modelled exactly. *)
Fixpoint ToLower (s : string) : string :=
  match s with
  | "" => ""
  | String c s1 =>
      match s1 with
      | "" => String (lower_byte c) ""
      | String c1 s2 =>
          if Ascii.eqb c "196" && Ascii.eqb c1 "176" then String "i" (ToLower s2)
          else
            match s2 with
            | "" => String (lower_byte c) (ToLower s1)
            | String c2 s3 =>
                if Ascii.eqb c "226" && Ascii.eqb c1 "132" && Ascii.eqb c2 "170"
                then String "k" (ToLower s3)
                else String (lower_byte c) (ToLower s1)
            end
      end
  end.

(** ** Regular expressions

    The two patterns of [activity.go] use character classes, concatenation,
    [+] and [*]; [regexp.MatchString] is modelled by Brzozowski derivatives.
    Both patterns are anchored by [^] and [$] (no multi-line flag), so a match
    is a match of the whole string. *)

Inductive regex : Type :=
| Void
| Eps
| Class (p : ascii -> bool)
| Cat (r1 r2 : regex)
| Alt (r1 r2 : regex)
| Star (r : regex).

Definition Plus (r : regex) : regex := Cat r (Star r).
Definition Chr (c : ascii) : regex := Class (Ascii.eqb c).

Fixpoint nullable (r : regex) : bool :=
  match r with
  | Void => false
  | Eps => true
  | Class _ => false
  | Cat r1 r2 => nullable r1 && nullable r2
  | Alt r1 r2 => nullable r1 || nullable r2
  | Star _ => true
  end.

Fixpoint deriv (c : ascii) (r : regex) : regex :=
  match r with
  | Void => Void
  | Eps => Void
  | Class p => if p c then Eps else Void
  | Cat r1 r2 =>
      if nullable r1 then Alt (Cat (deriv c r1) r2) (deriv c r2)
      else Cat (deriv c r1) r2
  | Alt r1 r2 => Alt (deriv c r1) (deriv c r2)
  | Star r1 => Cat (deriv c r1) (Star r1)
  end.

(** [regexp.MatchString(pattern, s)] for an anchored, valid pattern.  The
    error result of Go's function reports a pattern that does not compile; the
    two patterns below compile, so it is always nil and is left out. *)
Fixpoint MatchString (pattern : regex) (s : string) : bool :=
  match s with
  | "" => nullable pattern
  | String c s' => MatchString (deriv c pattern) s'
  end.

(** [\w]: ASCII letters, digits and the underscore. *)
Definition is_word (c : ascii) : bool :=
  let n := nat_of_ascii c in
  (Nat.leb 48 n && Nat.leb n 57) || (Nat.leb 65 n && Nat.leb n 90)
  || (Nat.leb 97 n && Nat.leb n 122) || Nat.eqb n 95.

(** [.] without the [s] flag: any character but the line feed. *)
Definition is_dot (c : ascii) : bool := is_not "010" c.

(** [^\w+:\w+$] *)
Definition feed_pattern : regex :=
  Cat (Plus (Class is_word)) (Cat (Chr ":") (Plus (Class is_word))).

(** [^\w+:\w+ .*?$]; the lazy [*?] accepts the same strings as [*]. *)
Definition feed_token_pattern : regex :=
  Cat (Plus (Class is_word))
    (Cat (Chr ":")
       (Cat (Plus (Class is_word)) (Cat (Chr " ") (Star (Class is_dot))))).

(** ** Feed references *)

(** Modelled from the spec: [FeedID] is declared outside [activity.go]; the
    spec describes it as an opaque string identifier with a [Value] accessor. *)
Definition FeedID : Type := string.
Definition Value (f : FeedID) : string := f.

(** [GeneralFeed], with the three fields [activity.go] fills in. *)
Record GeneralFeed : Type := mkGeneralFeed {
  FeedSlug : string;
  UserID : string;
  token : string
}.

(** Modelled from the spec: the accessors of the [Feed] interface are declared
    outside [activity.go]; the spec gives [format(ref) = slug + ":" + userID],
    followed by a space and the token when the token is not empty. *)
Definition Feed_FeedID (f : GeneralFeed) : FeedID :=
  FeedSlug f +:+ ":" +:+ UserID f.
Definition Feed_Token (f : GeneralFeed) : string := token f.

Definition matchFeedWithToken (to : string) : outcome (option GeneralFeed) :=
  if MatchString feed_token_pattern to then
    let firstSplit := Split to ":" in
    seg ← index firstSplit 1;
    let secondSplit := Split seg " " in
    slug ← index firstSplit 0;
    uid ← index secondSplit 0;
    tok ← index secondSplit 1;
    mret (Some {| FeedSlug := slug; UserID := uid; token := tok |})
  else mret None.

Definition matchFeed (to : string) : outcome (option GeneralFeed) :=
  if MatchString feed_pattern to then
    let firstSplit := Split to ":" in
    slug ← index firstSplit 0;
    uid ← index firstSplit 1;
    mret (Some {| FeedSlug := slug; UserID := uid; token := "" |})
  else mret None.

(** ** JSON

    JSON texts are modelled by the values they denote.  An object is a finite
    map (Go keeps the last of several members with one name), a string is the
    Go string it decodes to, and a number is kept as its literal.  Bytes, as
    the decoder gets them and as a [json.RawMessage] holds them, either are
    not a JSON text or denote a value. *)

Inductive json : Type :=
| JNull
| JBool (b : bool)
| JNumber (lit : string)
| JString (s : string)
| JArray (l : list json)
| JObject (m : gmap string json).

Inductive wire : Type :=
| Invalid
| Valid (j : json).

(** The errors of [json.Unmarshal]: the text is not JSON, or a value does not
    fit the Go type it is decoded into. *)
Inductive error : Type :=
| SyntaxError
| UnmarshalTypeError.

Definition is_null (j : json) : bool :=
  match j with
  | JNull => true
  | _ => false
  end.

(** [json.Unmarshal(raw, &s)] with [s] a [string] holding [cur]: a JSON string
    is stored, [null] leaves [s] as it is, and any other value leaves [s] as
    it is and is reported as an error. *)
Definition Unmarshal_string (raw : json) (cur : string) : string * option error :=
  match raw with
  | JString s => (s, None)
  | JNull => (cur, None)
  | _ => (cur, Some UnmarshalTypeError)
  end.

(** One element of a [[]string]: the decoder has grown the slice by a zero
    element, then decodes into it; a value of the wrong type leaves the zero
    element in place, the error is recorded and decoding goes on. *)
Definition Unmarshal_string_elem (raw : json) : string * option error :=
  Unmarshal_string raw "".

Definition first_error (e1 e2 : option error) : option error :=
  match e1 with
  | Some e => Some e
  | None => e2
  end.

Fixpoint Unmarshal_string_elems (l : list json) : list string * option error :=
  match l with
  | [] => ([], None)
  | j :: l' =>
      let '(s, e) := Unmarshal_string_elem j in
      let '(ss, e') := Unmarshal_string_elems l' in
      (s :: ss, first_error e e')
  end.

(** [json.Unmarshal(raw, &v)] with [v] a [[]string] holding [cur]: an array is
    decoded element by element (the slice keeps the elements decoded even when
    an error is returned), [null] sets the slice to nil, any other value
    leaves it as it is and is an error. *)
Definition Unmarshal_strings (raw : json) (cur : list string)
  : list string * option error :=
  match raw with
  | JArray l => Unmarshal_string_elems l
  | JNull => ([], None)
  | _ => (cur, Some UnmarshalTypeError)
  end.

Fixpoint Unmarshal_strings_elems (l : list json) : list (list string) * option error :=
  match l with
  | [] => ([], None)
  | j :: l' =>
      let '(ss, e) := Unmarshal_strings j [] in
      let '(sss, e') := Unmarshal_strings_elems l' in
      (ss :: sss, first_error e e')
  end.

(** [json.Unmarshal(raw, &v)] with [v] a [[][]string] holding [cur]. *)
Definition Unmarshal_strings2 (raw : json) (cur : list (list string))
  : list (list string) * option error :=
  match raw with
  | JArray l => Unmarshal_strings_elems l
  | JNull => ([], None)
  | _ => (cur, Some UnmarshalTypeError)
  end.

(** [json.Unmarshal(b, &rawPayload)] with [rawPayload] an empty
    [map[string]*payload]: an object gives its members, a member whose value
    is [null] being a nil pointer (here the value [JNull]); [null] sets the map
    to nil, over which the loop does not iterate; any other value is an
    error.  [*payload] has the [UnmarshalJSON] method of the [json.RawMessage]
    it embeds, which stores the member's bytes and does not fail. *)
Definition Unmarshal_rawPayload (b : wire) : error + gmap string json :=
  match b with
  | Invalid => inl SyntaxError
  | Valid (JObject m) => inr m
  | Valid JNull => inr ∅
  | Valid _ => inl UnmarshalTypeError
  end.

(** ** Time

    A [time.Time] is modelled by its civil reading in its own location,
    together with the offset of that location from UTC in seconds.  The
    layout of [activity.go] is the constant
    [layout = "2006-01-02T15:04:05.999999"]; [Format] and [Parse] below are
    [t.Format(layout)] and [time.Parse(layout, s)]. *)

Record Time : Type := mkTime {
  Year : Z;
  Month : Z;
  Day : Z;
  Hour : Z;
  Minute : Z;
  Second : Z;
  Nanosecond : Z;
  ZoneOffset : Z
}.

Definition is_digit (c : ascii) : bool :=
  let n := nat_of_ascii c in Nat.leb 48 n && Nat.leb n 57.
Definition digit_val (c : ascii) : Z := Z.of_nat (nat_of_ascii c - 48).
Definition digit_char (d : Z) : ascii := ascii_of_nat (48 + Z.to_nat d).

(** The last [width] decimal digits of [u], zero padded. *)
Fixpoint pad (width : nat) (u : Z) : string :=
  match width with
  | O => ""
  | S w => pad w (u / 10) +:+ String (digit_char (u mod 10)) ""
  end.

Fixpoint num_digits (fuel : nat) (u : Z) : nat :=
  match fuel with
  | O => 1
  | S f => if (u <? 10)%Z then 1 else S (num_digits f (u / 10))
  end.

(** [appendInt(b, x, width)] of package [time]: the decimal digits of [x],
    zero padded to [width] digits, after a minus sign when [x] is negative. *)
Definition appendInt (x : Z) (width : nat) : string :=
  let u := Z.abs x in
  let w := Nat.max width (num_digits (S (Z.to_nat (Z.log2 u))) u) in
  (if (x <? 0)%Z then "-" else "") +:+ pad w u.

Fixpoint take_str (n : nat) (s : string) : string :=
  match n, s with
  | S n', String c s' => String c (take_str n' s')
  | _, _ => ""
  end.

Fixpoint drop_str (n : nat) (s : string) : string :=
  match n, s with
  | S n', String c s' => drop_str n' s'
  | _, _ => s
  end.

Definition char_at (s : string) (i : nat) : ascii :=
  match String.get i s with
  | Some c => c
  | None => "000"
  end.

(** The loop of [formatNano] that drops trailing zeros: the number of digits
    of [buf] that are kept, starting from [n]. *)
Fixpoint trim_zeros (n : nat) (buf : string) : nat :=
  match n with
  | O => O
  | S n' => if Ascii.eqb (char_at buf n') "0" then trim_zeros n' buf else n
  end.

(** [formatNano] for the element [.999999] of the layout: the first six of
    the nine digits of the nanoseconds, trailing zeros dropped, after a period;
    nothing at all when the six digits are zeros. *)
Definition formatNano (nanosec : Z) : string :=
  let buf := pad 9 nanosec in
  let n := trim_zeros 6 buf in
  if Nat.eqb n 0 then "" else "." +:+ take_str n buf.

Definition Format (t : Time) : string :=
  appendInt (Year t) 4 +:+ "-" +:+ appendInt (Month t) 2 +:+ "-"
  +:+ appendInt (Day t) 2 +:+ "T" +:+ appendInt (Hour t) 2 +:+ ":"
  +:+ appendInt (Minute t) 2 +:+ ":" +:+ appendInt (Second t) 2
  +:+ formatNano (Nanosecond t).

Fixpoint atoi_from (acc : Z) (s : string) : option Z :=
  match s with
  | "" => Some acc
  | String c s' =>
      if is_digit c then atoi_from (10 * acc + digit_val c)%Z s' else None
  end.

(** [atoi] of package [time] on a string that starts with a digit. *)
Definition atoi (s : string) : option Z :=
  match s with
  | "" => None
  | _ => atoi_from 0 s
  end.

(** [getnum(s, fixed)]: one or two leading digits, two when [fixed]. *)
Definition getnum (s : string) (fixed : bool) : option (Z * string) :=
  match s with
  | String c0 s1 =>
      if is_digit c0 then
        match s1 with
        | String c1 s2 =>
            if is_digit c1 then Some (10 * digit_val c0 + digit_val c1, s2)%Z
            else if fixed then None else Some (digit_val c0, s1)
        | "" => if fixed then None else Some (digit_val c0, s1)
        end
      else None
  | "" => None
  end.

(** A literal character of the layout. *)
Definition skip (value : string) (prefix : ascii) : option string :=
  match value with
  | String c value' => if Ascii.eqb c prefix then Some value' else None
  | "" => None
  end.

(** The element [2006]: four digits. *)
Definition getyear (value : string) : option (Z * string) :=
  if Nat.ltb (String.length value) 4 || negb (is_digit (char_at value 0)) then None
  else y ← atoi (take_str 4 value); Some (y, drop_str 4 value).

Fixpoint span_digits (s : string) : string * string :=
  match s with
  | String c s' =>
      if is_digit c then let '(ds, rest) := span_digits s' in (String c ds, rest)
      else ("", s)
  | "" => ("", "")
  end.

(** The element [.999999]: when a period or comma and a digit follow, all the
    digits that follow are consumed and the first nine are the fraction;
    otherwise the fraction is omitted. *)
Definition getfrac (value : string) : option (Z * string) :=
  match value with
  | String c0 (String c1 _ as digits) =>
      if (Ascii.eqb c0 "." || Ascii.eqb c0 ",") && is_digit c1 then
        let '(ds, rest) := span_digits digits in
        let ds9 := take_str 9 ds in
        ns ← atoi ds9;
        Some (ns * 10 ^ Z.of_nat (9 - String.length ds9), rest)%Z
      else Some (0%Z, value)
  | _ => Some (0%Z, value)
  end.

Definition isLeap (y : Z) : bool :=
  ((y mod 4 =? 0) && (negb (y mod 100 =? 0) || (y mod 400 =? 0)))%Z.

Definition daysIn (m y : Z) : Z :=
  if (m =? 2)%Z then (if isLeap y then 29 else 28)%Z
  else if ((m =? 4) || (m =? 6) || (m =? 9) || (m =? 11))%Z then 30%Z
  else 31%Z.

(** [time.Parse(layout, value)]: the time read, in UTC, or [None] for an
    error. *)
Definition Parse (value : string) : option Time :=
  '(year, value) ← getyear value;
  value ← skip value "-";
  '(month, value) ← getnum value true;
  if negb ((1 <=? month) && (month <=? 12))%Z then None else
  value ← skip value "-";
  '(day, value) ← getnum value true;
  value ← skip value "T";
  '(hour, value) ← getnum value false;
  if negb (hour <? 24)%Z then None else
  value ← skip value ":";
  '(min, value) ← getnum value true;
  if negb (min <? 60)%Z then None else
  value ← skip value ":";
  '(sec, value) ← getnum value true;
  if negb (sec <? 60)%Z then None else
  '(nsec, value) ← getfrac value;
  if negb (String.eqb value "") then None else
  if negb ((1 <=? day) && (day <=? daysIn month year))%Z then None else
  Some {| Year := year; Month := month; Day := day; Hour := hour;
          Minute := min; Second := sec; Nanosecond := nsec; ZoneOffset := 0 |}.

(** ** Strings written as JSON

    [encoding/json] writes a Go string byte by byte; a byte that begins no
    valid UTF-8 encoding is written as the escape of U+FFFD, the replacement
    character.  The escapes it adds for [<], [>], [&], U+2028 and U+2029
    denote the characters themselves. *)

Definition in_range (lo hi : nat) (c : ascii) : bool :=
  let n := nat_of_ascii c in Nat.leb lo n && Nat.leb n hi.

(** [utf8.DecodeRuneInString(s)]: the number of bytes of the encoding at the
    head of [s], and [0] where Go returns [(RuneError, 1)], for a byte that
    begins no valid encoding.  A leading byte [E0], [ED], [F0] or [F4] narrows
    the range of the byte that follows it. *)
Definition rune_size (s : string) : nat :=
  match s with
  | "" => 0
  | String b0 s1 =>
      if in_range 0 127 b0 then 1
      else if in_range 194 223 b0 then
        match s1 with
        | String b1 _ => if in_range 128 191 b1 then 2 else 0
        | _ => 0
        end
      else if in_range 224 239 b0 then
        match s1 with
        | String b1 (String b2 _) =>
            let lo := if Ascii.eqb b0 "224" then 160 else 128 in
            let hi := if Ascii.eqb b0 "237" then 159 else 191 in
            if in_range lo hi b1 && in_range 128 191 b2 then 3 else 0
        | _ => 0
        end
      else if in_range 240 244 b0 then
        match s1 with
        | String b1 (String b2 (String b3 _)) =>
            let lo := if Ascii.eqb b0 "240" then 144 else 128 in
            let hi := if Ascii.eqb b0 "244" then 143 else 191 in
            if in_range lo hi b1 && in_range 128 191 b2 && in_range 128 191 b3
            then 4 else 0
        | _ => 0
        end
      else 0
  end.

(** The bytes [EF BF BD] of U+FFFD. *)
Definition replacement : string := String "239" (String "191" (String "189" "")).

(** [appendString] of [encoding/json]: the Go string that the JSON string
    written for [s] denotes.  Valid encodings are copied, and each other byte
    becomes U+FFFD. *)
Fixpoint appendString (s : string) : string :=
  match s with
  | "" => ""
  | String b0 s1 =>
      match rune_size s, s1 with
      | 1, _ => String b0 (appendString s1)
      | 2, String b1 s2 => String b0 (String b1 (appendString s2))
      | 3, String b1 (String b2 s3) =>
          String b0 (String b1 (String b2 (appendString s3)))
      | 4, String b1 (String b2 (String b3 s4)) =>
          String b0 (String b1 (String b2 (String b3 (appendString s4))))
      | _, _ => replacement +:+ appendString s1
      end
  end.

(** ** Numbers

    A [float64] is a value of the binary64 format, as [SpecFloat] of the
    standard library has it: a zero or an infinity with its sign, NaN, or
    [S754_finite s m e], which is [m * 2^e] with the sign [s].  The finite
    values are kept the way the format stores them: [2^52 <= m < 2^53] and
    [-1074 <= e <= 971], or [m < 2^52] and [e = -1074]. *)

Definition float64 : Type := spec_float.

#[global] Instance float64_eq_dec : EqDecision float64.
Proof. solve_decision. Defined.

(** The number literals of JSON, [-? int frac? exp?]: the literal denotes
    [n * 10^k] with a minus sign when [neg].  The decoder passes nothing else
    to [strconv.ParseFloat]. *)
Definition number_literal (lit : string) : option (bool * Z * Z) :=
  let '(neg, s) :=
    match lit with
    | String c s' => if Ascii.eqb c "-" then (true, s') else (false, lit)
    | "" => (false, lit)
    end in
  let '(int, s) := span_digits s in
  if String.eqb int "" then None
  else if Nat.ltb 1 (String.length int) && Ascii.eqb (char_at int 0) "0" then None
  else
    '(frac, s) ←
      match s with
      | String c s' =>
          if Ascii.eqb c "." then
            let '(frac, s'') := span_digits s' in
            if String.eqb frac "" then None else Some (frac, s'')
          else Some ("", s)
      | "" => Some ("", s)
      end;
    exp ←
      match s with
      | "" => Some 0%Z
      | String c s' =>
          if Ascii.eqb c "e" || Ascii.eqb c "E" then
            let '(eneg, ds) :=
              match s' with
              | String c' s'' =>
                  if Ascii.eqb c' "-" then (true, s'')
                  else if Ascii.eqb c' "+" then (false, s'')
                  else (false, s')
              | "" => (false, s')
              end in
            if String.eqb ds "" then None
            else e ← atoi_from 0 ds; Some (if eneg then - e else e)%Z
          else None
      end;
    n ← atoi_from 0 (int +:+ frac);
    Some (neg, n, (exp - Z.of_nat (String.length frac))%Z).

(** [num / den / 2^e], as a fraction. *)
Definition scale2 (num den e : Z) : Z * Z :=
  if (0 <=? e)%Z then (num, den * 2 ^ e)%Z else (num * 2 ^ (- e), den)%Z.

(** [num / den / 10^q], as a fraction. *)
Definition scale10 (num den q : Z) : Z * Z :=
  if (0 <=? q)%Z then (num, den * 10 ^ q)%Z else (num * 10 ^ (- q), den)%Z.

(** The integer nearest to [num / den], the even one of two that are equally
    near. *)
Definition round_half_even (num den : Z) : Z :=
  let q := (num / den)%Z in
  match (2 * (num mod den) ?= den)%Z with
  | Lt => q
  | Gt => (q + 1)%Z
  | Eq => if Z.even q then q else (q + 1)%Z
  end.

(** The [float64] nearest to [num / den], for [num] and [den] positive, with
    the sign [neg]: [fl] is the binary exponent of the fraction, [e] the
    exponent of the format at that magnitude and [m] the fraction rounded to
    a multiple of [2^e].  [None] when the result is beyond the largest
    [float64]. *)
Definition round_float64 (neg : bool) (num den : Z) : option float64 :=
  let l := (Z.log2 num - Z.log2 den)%Z in
  let '(a, b) := scale2 num den l in
  let fl := if (b <=? a)%Z then l else (l - 1)%Z in
  let e := Z.max (fl - 52) (-1074) in
  let '(a, b) := scale2 num den e in
  let m := round_half_even a b in
  let '(m, e) := if (m =? 2 ^ 53)%Z then (2 ^ 52, e + 1)%Z else (m, e) in
  if (971 <? e)%Z then None
  else
    match m with
    | Zpos p => Some (S754_finite neg p e)
    | _ => Some (S754_zero neg)
    end.

(** The [float64] nearest to [n * 10^k].  A decimal of [10^400] or more is
    beyond the largest [float64], and one below [10^-400] rounds to zero;
    these are decided without computing the power. *)
Definition decimal_float64 (neg : bool) (n k : Z) : option float64 :=
  if (n =? 0)%Z then Some (S754_zero neg)
  else if (400 <=? k)%Z then None
  else if (k + Z.log2 n + 1 <=? -400)%Z then Some (S754_zero neg)
  else
    let '(num, den) := scale10 n 1 (- k) in
    round_float64 neg num den.

(** [strconv.ParseFloat(s, 64)] on a number literal: the nearest [float64],
    or [None] for the error Go returns when the literal is out of range. *)
Definition ParseFloat (s : string) : option float64 :=
  '(neg, n, k) ← number_literal s;
  decimal_float64 neg n k.

(** [floor (log10 (num / den))], from an estimate that is off by one at
    most. *)
Fixpoint fix_log10 (fuel : nat) (num den p : Z) : Z :=
  match fuel with
  | O => p
  | S fuel' =>
      let '(a, b) := scale10 num den p in
      if (a <? b)%Z then fix_log10 fuel' num den (p - 1)
      else if (10 * b <=? a)%Z then fix_log10 fuel' num den (p + 1)
      else p
  end.

Definition floor_log10 (num den : Z) : Z :=
  fix_log10 4 num den ((Z.log2 num - Z.log2 den) * 1233 / 4096).

(** Whether the decimal [d * 10^q] is read as the float [f]. *)
Definition reads_as (f : float64) (d q : Z) : bool :=
  bool_decide (decimal_float64 false d q = Some f).

(** The shortest decimal [d * 10^q] that is read as [f = num / den], and the
    nearest to [f] among those of its length, which is what
    [strconv.FormatFloat] with precision [-1] computes: the decimals of [n],
    [n + 1], ... digits just below and just above [f] are tried in turn.
    Seventeen digits always identify a [float64]. *)
Fixpoint shortest (fuel : nat) (f : float64) (num den p n : Z) : Z * Z :=
  let q := (p - n + 1)%Z in
  let '(a, b) := scale10 num den q in
  let lo := (a / b)%Z in
  let hi := if (a mod b =? 0)%Z then lo else (lo + 1)%Z in
  match fuel with
  | O => (lo, q)
  | S fuel' =>
      match reads_as f lo q, reads_as f hi q with
      | true, true => (if (2 * a <=? (lo + hi) * b)%Z then lo else hi, q)
      | true, false => (lo, q)
      | false, true => (hi, q)
      | false, false => shortest fuel' f num den p (n + 1)
      end
  end.

Fixpoint strip_zeros (s : string) : string :=
  match s with
  | "" => ""
  | String c s' =>
      match strip_zeros s' with
      | "" => if Ascii.eqb c "0" then "" else String c ""
      | t => String c t
      end
  end.

Fixpoint zeros (n : nat) : string :=
  match n with
  | O => ""
  | S n' => String "0" (zeros n')
  end.

(** The digits of the shortest decimal of [m * 2^e], without trailing zeros,
    and the position [dp] of its decimal point: the decimal is
    [0.digits * 10^dp]. *)
Definition shortest_digits (m : positive) (e : Z) : string * Z :=
  let '(num, den) := scale2 (Zpos m) 1 (- e) in
  let p := floor_log10 num den in
  let '(d, q) := shortest 17 (S754_finite false m e) num den p 1 in
  let s := appendInt d 0 in
  (strip_zeros s, (Z.of_nat (String.length s) + q)%Z).

(** The format [e] of [strconv], with the exponent as the encoder leaves it:
    [d.ddde+x], the exponent without a leading zero. *)
Definition fmt_e (digs : string) (dp : Z) : string :=
  let exp := (dp - 1)%Z in
  take_str 1 digs
  +:+ (if Nat.ltb 1 (String.length digs) then "." +:+ drop_str 1 digs else "")
  +:+ "e" +:+ (if (exp <? 0)%Z then "-" else "+") +:+ appendInt (Z.abs exp) 0.

(** The format [f] of [strconv]: the digits with the decimal point in place,
    zeros filling up to the point on either side. *)
Definition fmt_f (digs : string) (dp : Z) : string :=
  let nd := String.length digs in
  let point := Z.to_nat dp in
  (if (0 <? dp)%Z then take_str point digs +:+ zeros (point - nd) else "0")
  +:+ (if (dp <? Z.of_nat nd)%Z
       then "." +:+ zeros (Z.to_nat (- dp)) +:+ drop_str point digs
       else "").

(** [floatEncoder] of [encoding/json] for a [float64]: an error for NaN and
    the infinities; otherwise the shortest digits, in the format [e] when
    [abs < 1e-6 || abs >= 1e21] and in the format [f] when not.  The constant
    [1e-6] of Go is the [float64] [4722366482869645 * 2^-72]. *)
Definition floatEncoder (f : float64) : option string :=
  match f with
  | S754_nan | S754_infinity _ => None
  | S754_zero neg => Some (if neg then "-0" else "0")
  | S754_finite neg m e =>
      let '(digs, dp) := shortest_digits m e in
      let '(num, den) := scale2 (Zpos m) 1 (- e) in
      let small := (num * 2 ^ 72 <? 4722366482869645 * den)%Z in
      let large := (10 ^ 21 * den <=? num)%Z in
      Some ((if neg then "-" else "")
            +:+ (if small || large then fmt_e digs dp else fmt_f digs dp))
  end.

(** ** Values of type [interface{}]

    The values of [MetaData] and of the map [payload] of [MarshalJSON].  The
    first six constructors are the values [json.Unmarshal] stores in an
    [interface{}]: nil, [bool], [float64], [string], a [[]interface{}] and a
    [map[string]interface{}], both not nil.  [Strings] is a [[]string] that is
    not nil and [RawMessage] a [*json.RawMessage] that is not nil, which
    [MarshalJSON] puts under [to] and [data].  [Opaque r] stands for a value
    of any other type, or a nil slice, map or pointer; all the model knows of
    it is what [json.Marshal] makes of it: the JSON value [r] of the text
    written, or an error when [r] is [None]. *)

Inductive any : Type :=
| Nil
| Bool (b : bool)
| Float64 (f : float64)
| Str (s : string)
| Slice (l : list any)
| Map (m : gmap string any)
| Strings (l : list string)
| RawMessage (raw : wire)
| Opaque (r : option json).

(** [json.Unmarshal(raw, &v)] with [v] a nil [interface{}]: the generic value
    of the text.  A number becomes the nearest [float64]; for a number out
    of range the decoder records an error, which [activity.go] ignores, and
    stores nil. *)
Fixpoint Unmarshal_interface (raw : json) : any :=
  match raw with
  | JNull => Nil
  | JBool b => Bool b
  | JNumber lit =>
      match ParseFloat lit with
      | Some f => Float64 f
      | None => Nil
      end
  | JString s => Str s
  | JArray l => Slice (map Unmarshal_interface l)
  | JObject m => Map (Unmarshal_interface <$> m)
  end.

(** The order in which [json.Marshal] writes the members of a map: by key,
    byte by byte. *)
Definition key_le {A : Type} (x y : string * A) : Prop := String.leb x.1 y.1 = true.

#[global] Instance key_le_dec {A : Type} : RelDecision (@key_le A).
Proof. intros x y. unfold key_le. apply _. Defined.

(** The object that [json.Marshal] writes for a map whose values have been
    encoded, [None] marking a value that cannot be: an error if there is such
    a value; otherwise the members sorted by key, each key written by
    [appendString].  Two keys that are written alike give two members of one
    name, of which a reader keeps the last. *)
Definition Marshal_members (members : gmap string (option json)) : option json :=
  kvs ← mapM (fun kv : string * option json => v ← kv.2; Some (kv.1, v))
             (merge_sort key_le (map_to_list members));
  Some (JObject (foldl (fun (m : gmap string json) (kv : string * json) =>
                          <[appendString kv.1 := kv.2]> m) ∅ kvs)).

(** [json.Marshal(v)]: the JSON value of the text written, or [None] for an
    error.  The bytes of a raw message are written as they are, after a
    check that they are a JSON text. *)
Fixpoint Marshal (v : any) : option json :=
  match v with
  | Nil => Some JNull
  | Bool b => Some (JBool b)
  | Float64 f => JNumber <$> floatEncoder f
  | Str s => Some (JString (appendString s))
  | Slice l => JArray <$> mapM Marshal l
  | Map m => Marshal_members (Marshal <$> m)
  | Strings l => Some (JArray (map (fun s => JString (appendString s)) l))
  | RawMessage raw =>
      match raw with
      | Valid j => Some j
      | Invalid => None
      end
  | Opaque r => r
  end.

(** ** Activity *)

(** [TimeStamp] and [Data] are pointers and [MetaData] is a map: [None] is
    nil.  [Data] points to the bytes of a [json.RawMessage].  [To] is a slice
    of [Feed]; the feeds are [GeneralFeed]s, the one implementation the
    decoder builds. *)
Record Activity : Type := mkActivity {
  ID : string;
  Actor : string;
  Verb : string;
  Object : string;
  Target : string;
  Origin : FeedID;
  TimeStamp : option Time;
  ForeignID : string;
  Data : option wire;
  MetaData : option (gmap string any);
  To : list GeneralFeed
}.

(** The zero value [Activity{}]. *)
Definition zero : Activity :=
  {| ID := ""; Actor := ""; Verb := ""; Object := ""; Target := "";
     Origin := ""; TimeStamp := None; ForeignID := ""; Data := None;
     MetaData := None; To := [] |}.

Definition set_ID (v : string) (a : Activity) : Activity :=
  mkActivity v (Actor a) (Verb a) (Object a) (Target a) (Origin a)
    (TimeStamp a) (ForeignID a) (Data a) (MetaData a) (To a).
Definition set_Actor (v : string) (a : Activity) : Activity :=
  mkActivity (ID a) v (Verb a) (Object a) (Target a) (Origin a)
    (TimeStamp a) (ForeignID a) (Data a) (MetaData a) (To a).
Definition set_Verb (v : string) (a : Activity) : Activity :=
  mkActivity (ID a) (Actor a) v (Object a) (Target a) (Origin a)
    (TimeStamp a) (ForeignID a) (Data a) (MetaData a) (To a).
Definition set_Object (v : string) (a : Activity) : Activity :=
  mkActivity (ID a) (Actor a) (Verb a) v (Target a) (Origin a)
    (TimeStamp a) (ForeignID a) (Data a) (MetaData a) (To a).
Definition set_Target (v : string) (a : Activity) : Activity :=
  mkActivity (ID a) (Actor a) (Verb a) (Object a) v (Origin a)
    (TimeStamp a) (ForeignID a) (Data a) (MetaData a) (To a).
Definition set_Origin (v : FeedID) (a : Activity) : Activity :=
  mkActivity (ID a) (Actor a) (Verb a) (Object a) (Target a) v
    (TimeStamp a) (ForeignID a) (Data a) (MetaData a) (To a).
Definition set_TimeStamp (v : option Time) (a : Activity) : Activity :=
  mkActivity (ID a) (Actor a) (Verb a) (Object a) (Target a) (Origin a)
    v (ForeignID a) (Data a) (MetaData a) (To a).
Definition set_ForeignID (v : string) (a : Activity) : Activity :=
  mkActivity (ID a) (Actor a) (Verb a) (Object a) (Target a) (Origin a)
    (TimeStamp a) v (Data a) (MetaData a) (To a).
Definition set_Data (v : option wire) (a : Activity) : Activity :=
  mkActivity (ID a) (Actor a) (Verb a) (Object a) (Target a) (Origin a)
    (TimeStamp a) (ForeignID a) v (MetaData a) (To a).
Definition set_MetaData (v : option (gmap string any)) (a : Activity) : Activity :=
  mkActivity (ID a) (Actor a) (Verb a) (Object a) (Target a) (Origin a)
    (TimeStamp a) (ForeignID a) (Data a) v (To a).
Definition set_To (v : list GeneralFeed) (a : Activity) : Activity :=
  mkActivity (ID a) (Actor a) (Verb a) (Object a) (Target a) (Origin a)
    (TimeStamp a) (ForeignID a) (Data a) (MetaData a) v.

(** ** Encoder *)

(** The loop over [a.To]: the string of each feed. *)
Definition to_string (feed : GeneralFeed) : string :=
  let to := Value (Feed_FeedID feed) in
  if negb (String.eqb (Feed_Token feed) "") then to +:+ " " +:+ Feed_Token feed
  else to.

(** [if c { payload[key] = value }] *)
Definition insert_if (c : bool) (key : string) (value : any)
    (payload : gmap string any) : gmap string any :=
  if c then <[key := value]> payload else payload.

(** [if p != nil { payload[key] = p }], for a pointer [p] to a raw message. *)
Definition insert_some (key : string) (p : option wire)
    (payload : gmap string any) : gmap string any :=
  match p with
  | Some raw => <[key := RawMessage raw]> payload
  | None => payload
  end.

(** The map [payload] that [MarshalJSON] builds and hands to [json.Marshal].
    [now] is the value of [time.Now()]. *)
Definition MarshalJSON_payload (now : Time) (a : Activity) : gmap string any :=
  let payload : gmap string any :=
    foldr (fun kv p => <[kv.1 := kv.2]> p) ∅ (map_to_list (default ∅ (MetaData a))) in
  let payload := <["actor" := Str (Actor a)]> payload in
  let payload := <["verb" := Str (Verb a)]> payload in
  let payload := <["object" := Str (Object a)]> payload in
  let payload := <["origin" := Str (Value (Origin a))]> payload in
  let payload := insert_if (negb (String.eqb (ID a) "")) "id" (Str (ID a)) payload in
  let payload :=
    insert_if (negb (String.eqb (Target a) "")) "target" (Str (Target a)) payload in
  let payload := insert_some "data" (Data a) payload in
  let payload :=
    insert_if (negb (String.eqb (ForeignID a) "")) "foreign_id"
      (Str (ForeignID a)) payload in
  let payload :=
    <["time" := Str match TimeStamp a with
                    | None => Format now
                    | Some t => Format t
                    end]> payload in
  let tos := map to_string (To a) in
  let payload :=
    insert_if (Nat.ltb 0 (List.length tos)) "to" (Strings tos) payload in
  payload.

(** [MarshalJSON]: the bytes that [json.Marshal(payload)] returns, or [None]
    when it returns an error. *)
Definition MarshalJSON (now : Time) (a : Activity) : option wire :=
  Valid <$> Marshal (Map (MarshalJSON_payload now a)).

(** ** Decoder *)

(** [type payload struct { json.RawMessage }] *)
Definition payload : Type := json.

Definition payload_String (p : payload) : string :=
  let strValue := "" in
  (Unmarshal_string p strValue).1.

Definition payload_TimeStamp (p : payload) : option Time :=
  let '(strValue, err) := Unmarshal_string p "" in
  match err with
  | Some _ => None
  | None => Parse strValue
  end.

(** The loop of [to1D] over [to2D]. *)
Fixpoint to1D_append (to1D : list string) (to2D : list (list string)) : list string :=
  match to2D with
  | [] => to1D
  | to :: rest =>
      match to with
      | [to0; to1] => to1D_append (to1D ++ [to0 +:+ " " +:+ to1])%list rest
      | [to0] => to1D_append (to1D ++ [to0])%list rest
      | _ => to1D_append to1D rest
      end
  end.

Definition payload_to1D (p : payload) : list string :=
  let '(to1D, err) := Unmarshal_strings p [] in
  match err with
  | Some _ =>
      let '(to2D, err) := Unmarshal_strings2 p [] in
      match err with
      | None => to1D_append to1D to2D
      | Some _ => to1D
      end
  | None => to1D
  end.

(** The loop of [To] over the strings of [to1D]. *)
Fixpoint To_loop (feed : list GeneralFeed) (tos : list string)
  : outcome (list GeneralFeed) :=
  match tos with
  | [] => mret feed
  | to :: rest =>
      m1 ← matchFeed to;
      let feed := match m1 with Some f => (feed ++ [f])%list | None => feed end in
      m2 ← matchFeedWithToken to;
      let feed := match m2 with Some f => (feed ++ [f])%list | None => feed end in
      To_loop feed rest
  end.

Definition payload_To (p : payload) : outcome (list GeneralFeed) :=
  To_loop [] (payload_to1D p).

(** The body of the loop of [UnmarshalJSON] for one member of [rawPayload]. *)
Definition UnmarshalJSON_body (key : string) (value : payload)
    (a : Activity) (metadata : gmap string any)
  : outcome (Activity * gmap string any) :=
  let lowerKey := ToLower key in
  if is_null value then mret (a, metadata)
  else if String.eqb lowerKey "id" then mret (set_ID (payload_String value) a, metadata)
  else if String.eqb lowerKey "actor" then mret (set_Actor (payload_String value) a, metadata)
  else if String.eqb lowerKey "verb" then mret (set_Verb (payload_String value) a, metadata)
  else if String.eqb lowerKey "foreign_id" then
    mret (set_ForeignID (payload_String value) a, metadata)
  else if String.eqb lowerKey "object" then mret (set_Object (payload_String value) a, metadata)
  else if String.eqb lowerKey "origin" then mret (set_Origin (payload_String value) a, metadata)
  else if String.eqb lowerKey "target" then mret (set_Target (payload_String value) a, metadata)
  else if String.eqb lowerKey "time" then
    mret (set_TimeStamp (payload_TimeStamp value) a, metadata)
  else if String.eqb lowerKey "data" then
    mret (set_Data (Some (Valid value)) a, metadata)
  else if String.eqb lowerKey "to" then
    feeds ← payload_To value; mret (set_To feeds a, metadata)
  else mret (a, <[key := Unmarshal_interface value]> metadata).

(** The loop of [UnmarshalJSON], over the members in the order [entries]. *)
Fixpoint UnmarshalJSON_range (entries : list (string * payload))
    (a : Activity) (metadata : gmap string any)
  : outcome (Activity * gmap string any) :=
  match entries with
  | [] => mret (a, metadata)
  | (key, value) :: rest =>
      '(a', metadata') ← UnmarshalJSON_body key value a metadata;
      UnmarshalJSON_range rest a' metadata'
  end.

(** Go does not fix the order in which [range] visits a map.  The order is
    a parameter of the model: [order] lists the members of the map, each
    once. *)
Definition iteration_order (order : gmap string payload -> list (string * payload)) : Prop :=
  forall m, order m ≡ₚ map_to_list m.

(** [UnmarshalJSON]: the receiver after the call and the error returned, when
    the loop visits the members of [rawPayload] in the order [order]. *)
Definition UnmarshalJSON (order : gmap string payload -> list (string * payload))
    (a : Activity) (b : wire) : outcome (Activity * option error) :=
  let metadata : gmap string any := ∅ in
  match Unmarshal_rawPayload b with
  | inl err => mret (a, Some err)
  | inr rawPayload =>
      '(a', metadata') ← UnmarshalJSON_range (order rawPayload) a metadata;
      mret (set_MetaData (Some metadata') a', None)
  end.

(** * Specification vocabulary

    The definitions below are not part of [activity.go]; the theorems are
    stated with them. *)

(** ** The language of a regular expression *)

Inductive Lang : regex -> string -> Prop :=
| Lang_Eps : Lang Eps ""
| Lang_Class p c : p c = true -> Lang (Class p) (String c "")
| Lang_Cat r1 r2 s1 s2 : Lang r1 s1 -> Lang r2 s2 -> Lang (Cat r1 r2) (s1 +:+ s2)
| Lang_Alt_l r1 r2 s : Lang r1 s -> Lang (Alt r1 r2) s
| Lang_Alt_r r1 r2 s : Lang r2 s -> Lang (Alt r1 r2) s
| Lang_Star_nil r : Lang (Star r) ""
| Lang_Star_app r s1 s2 : Lang r s1 -> Lang (Star r) s2 -> Lang (Star r) (s1 +:+ s2).

(** [word] of the spec: one or more word characters. *)
Definition is_words (s : string) : bool :=
  negb (String.eqb s "") && all_chars is_word s.

(** The part of [s] after the first [sep] (nothing when it has none). *)
Fixpoint after (sep : ascii) (s : string) : string :=
  match s with
  | "" => ""
  | String c s' => if Ascii.eqb c sep then s' else after sep s'
  end.

(** ** Members of the decoded object *)

(** The ten names the decoder dispatches on. *)
Definition recognized (lowerKey : string) : bool :=
  String.eqb lowerKey "id" || String.eqb lowerKey "actor" || String.eqb lowerKey "verb"
  || String.eqb lowerKey "foreign_id" || String.eqb lowerKey "object"
  || String.eqb lowerKey "origin" || String.eqb lowerKey "target"
  || String.eqb lowerKey "time" || String.eqb lowerKey "data" || String.eqb lowerKey "to".

(** The members that end in the metadata: not null, and not recognized when
    compared without regard to case. *)
Definition to_metadata (kv : string * json) : bool :=
  negb (is_null kv.2) && negb (recognized (ToLower kv.1)).

(** A member that the decoder dispatches to the field named [name]. *)
Definition hits (name : string) (kv : string * json) : bool :=
  negb (is_null kv.2) && String.eqb (ToLower kv.1) name.

(** The feeds [To] returns. *)
Definition feeds_of (p : payload) : list GeneralFeed :=
  match payload_To p with
  | Done feeds => feeds
  | Panic => []
  end.

Definition is_object (b : wire) : bool :=
  match b with
  | Valid (JObject _) => true
  | _ => false
  end.

Definition object_or_null (b : wire) : bool :=
  match b with
  | Valid (JObject _) | Valid JNull => true
  | _ => false
  end.

(** A value of [time] that is not a JSON string, or is a string that the
    layout does not parse. *)
Definition unparseable_time (v : json) : Prop :=
  forall s, v = JString s -> Parse s = None.

(** ** Members of the encoded object *)

(** The members [MarshalJSON] writes itself: the payload of the activity
    without its metadata. *)
Definition fields (now : Time) (a : Activity) : gmap string any :=
  MarshalJSON_payload now (set_MetaData None a).

(** An optional member of the encoded object: [key] is written from [field]
    when [field] is not empty, and otherwise is whatever the metadata has. *)
Definition optional_key (p md : gmap string any) (key field : string) : Prop :=
  (is_Some (p !! key) <-> field <> "" \/ is_Some (md !! key))
  /\ (field <> "" -> p !! key = Some (Str field))
  /\ (field = "" -> p !! key = md !! key).

(** The same of the object [m] that is written: a field that is not empty is
    written as [json.Marshal] writes a string, and for an empty field the
    object has what is written for the value the metadata has, if any. *)
Definition optional_member (m : gmap string json) (md : gmap string any)
    (key field : string) : Prop :=
  (is_Some (m !! key) <-> field <> "" \/ is_Some (md !! key))
  /\ (field <> "" -> m !! key = Some (JString (appendString field)))
  /\ (field = "" -> m !! key = md !! key ≫= Marshal).

(** ** Activities that survive the wire *)

(** A string that is valid UTF-8: [json.Marshal] writes it as it is. *)
Definition valid_utf8 (s : string) : bool := String.eqb (appendString s) s.

(** The seven strings of an Activity are valid UTF-8. *)
Definition strings_valid (a : Activity) : bool :=
  valid_utf8 (ID a) && valid_utf8 (Actor a) && valid_utf8 (Verb a)
  && valid_utf8 (Object a) && valid_utf8 (Target a) && valid_utf8 (Origin a)
  && valid_utf8 (ForeignID a).

(** A value of the metadata that is read back as itself from what
    [json.Marshal] writes for it: a value of the types the decoder makes,
    whose strings and keys are valid UTF-8 and whose numbers are read back
    from their digits.  Go's shortest formatting promises the latter of every
    finite [float64]. *)
Inductive survives : any -> Prop :=
| survives_Nil : survives Nil
| survives_Bool b : survives (Bool b)
| survives_Float64 f lit :
    floatEncoder f = Some lit -> ParseFloat lit = Some f -> survives (Float64 f)
| survives_Str s : valid_utf8 s = true -> survives (Str s)
| survives_Slice l : (forall v, v ∈ l -> survives v) -> survives (Slice l)
| survives_Map m :
    (forall k, is_Some (m !! k) -> valid_utf8 k = true) ->
    (forall k v, m !! k = Some v -> survives v) ->
    survives (Map m).

(** The object written for the map [payload] of [MarshalJSON], member by
    member; a member whose value [json.Marshal] cannot write is left out. *)
Definition encoded (now : Time) (a : Activity) : gmap string json :=
  omap Marshal (MarshalJSON_payload now a).

(** [decode(encode(a))]: the result of decoding into a fresh Activity the
    bytes of [a]; [None] when [MarshalJSON] returns an error and no bytes. *)
Definition decode_encoded (order : gmap string payload -> list (string * payload))
    (now : Time) (a : Activity) : option (outcome (Activity * option error)) :=
  b ← MarshalJSON now a; Some (UnmarshalJSON order zero b).

(** The number of constructors of a JSON value. *)
Fixpoint json_size (j : json) : nat :=
  match j with
  | JArray l => S (foldr (fun v n => json_size v + n) 0 l)
  | JObject m => S (map_fold (fun _ v n => json_size v + n) 0 m)
  | _ => 1
  end.

Definition token_char (c : ascii) : bool := is_not " " c && is_not ":" c && is_dot c.

(** A feed that the decoder reads back from its string: slug and user are
    words, and the token has no space, colon or line feed. *)
Definition feed_ok (f : GeneralFeed) : bool :=
  is_words (FeedSlug f) && is_words (UserID f) && all_chars token_char (token f).

(** A time that is a date of the calendar. *)
Definition valid_time (t : Time) : bool :=
  ((1 <=? Month t) && (Month t <=? 12) && (1 <=? Day t)
   && (Day t <=? daysIn (Month t) (Year t))
   && (0 <=? Hour t) && (Hour t <? 24) && (0 <=? Minute t) && (Minute t <? 60)
   && (0 <=? Second t) && (Second t <? 60)
   && (0 <=? Nanosecond t) && (Nanosecond t <? 1000000000))%Z.

(** A time that the layout writes in full: a year of four digits, whole
    microseconds, and the location UTC. *)
Definition layout_exact (t : Time) : bool :=
  (valid_time t && (0 <=? Year t) && (Year t <=? 9999)
   && (Nanosecond t mod 1000 =? 0) && (ZoneOffset t =? 0))%Z.

Definition pow10 (k : nat) : Z := (10 ^ Z.of_nat k)%Z.

(** ** Inputs of the examples *)

(** [2020-01-02T03:04:05.123456] *)
Definition a_time : Time := mkTime 2020 1 2 3 4 5 123456000 0.

(** The same second, 500 nanoseconds in. *)
Definition a_time_500ns : Time := mkTime 2020 1 2 3 4 5 500 0.

(** The [float64] 42, which is [5910974510923776 * 2^-47]. *)
Definition forty_two : float64 := S754_finite false 5910974510923776 (-47).

Definition an_activity : Activity :=
  {| ID := "42"; Actor := "A"; Verb := "post"; Object := "O"; Target := "";
     Origin := "user:9"; TimeStamp := Some a_time; ForeignID := "";
     Data := Some (Valid (JObject {["n" := JNumber "1"]}));
     MetaData := Some {["extra_field" := Float64 forty_two]};
     To := [mkGeneralFeed "user" "1" ""; mkGeneralFeed "user" "2" "tok123"] |}.

Definition an_activity_500ns : Activity :=
  set_TimeStamp (Some a_time_500ns) (set_MetaData (Some ∅) zero).

(** [[["user","1"], ["user"]]] *)
Definition to_user_1_user : json :=
  JArray [JArray [JString "user"; JString "1"]; JArray [JString "user"]].

(** ** Vocabulary of the further properties *)

(** The keys [MarshalJSON] writes itself for [a]. *)
Definition written_keys (a : Activity) : gset string :=
  {["actor"; "verb"; "object"; "origin"; "time"]}
  ∪ (if String.eqb (ID a) "" then ∅ else {["id"]})
  ∪ (if String.eqb (Target a) "" then ∅ else {["target"]})
  ∪ (if String.eqb (ForeignID a) "" then ∅ else {["foreign_id"]})
  ∪ (match Data a with Some _ => {["data"]} | None => ∅ end)
  ∪ (match To a with [] => ∅ | _ => {["to"]} end).

(** The time that the layout keeps of [t]: whole microseconds, read in
    UTC. *)
Definition on_the_wire (t : Time) : Time :=
  {| Year := Year t; Month := Month t; Day := Day t; Hour := Hour t;
     Minute := Minute t; Second := Second t;
     Nanosecond := (Nanosecond t - Nanosecond t mod 1000)%Z; ZoneOffset := 0 |}.

(** The inner list [[feed, token]] of the second shape of [to]. *)
Definition pair_of (f : GeneralFeed) : json :=
  JArray [JString (Value (Feed_FeedID f)); JString (Feed_Token f)].

(** No member of [m] is dispatched to the field [name]. *)
Definition untouched (name : string) (m : gmap string json) : Prop :=
  forall k v, m !! k = Some v -> hits name (k, v) = false.

(** Some member of [m] is dispatched to the field [name], and all that are
    have the value [v]. *)
Definition only_value (name : string) (m : gmap string json) (v : json) : Prop :=
  (exists k, m !! k = Some v /\ hits name (k, v) = true)
  /\ (forall k' v', m !! k' = Some v' -> hits name (k', v') = true -> v' = v).

(** No two members of [m] that are not null have keys that differ and
    lower-case to one recognized name. *)
Definition case_collision_free (m : gmap string json) : Prop :=
  forall k1 k2 v1 v2,
    m !! k1 = Some v1 -> m !! k2 = Some v2 ->
    is_null v1 = false -> is_null v2 = false ->
    ToLower k1 = ToLower k2 -> recognized (ToLower k1) = true -> k1 = k2.

(** The string [payload.String] returns: the string of a JSON string, and
    the empty string for any other value. *)
Definition string_or_empty (v : json) : string :=
  match v with
  | JString s => s
  | _ => ""
  end.

Definition four_digit_year (t : Time) : bool :=
  ((0 <=? Year t) && (Year t <=? 9999))%Z.

(** * Strings and regular expressions *)

(** ** Appending strings *)

Lemma str_app_nil_l (s : string) : "" +:+ s = s.
Proof. reflexivity. Qed.
Lemma str_app_cons (c : ascii) (s t : string) : String c s +:+ t = String c (s +:+ t).
Proof. reflexivity. Qed.
Lemma str_app_nil_r (s : string) : s +:+ "" = s.
Proof. induction s as [|c s IH]; [reflexivity|]. rewrite str_app_cons. by f_equal. Qed.
Lemma str_app_assoc (s t u : string) : (s +:+ t) +:+ u = s +:+ t +:+ u.
Proof. induction s as [|c s IH]; [reflexivity|]. rewrite !str_app_cons. by f_equal. Qed.
Lemma str_app_eq_nil (s t : string) : s +:+ t = "" -> s = "" /\ t = "".
Proof. destruct s; [rewrite str_app_nil_l; auto|]. rewrite str_app_cons. discriminate. Qed.

Lemma all_chars_app p s t :
  all_chars p (s +:+ t) = all_chars p s && all_chars p t.
Proof.
  induction s as [|c s IH]; [reflexivity|].
  rewrite str_app_cons. simpl. rewrite IH. by rewrite andb_assoc.
Qed.

Lemma all_chars_impl (p q : ascii -> bool) s :
  (forall c, p c = true -> q c = true) -> all_chars p s = true -> all_chars q s = true.
Proof.
  intros Hpq. induction s as [|c s IH]; [done|]. simpl.
  intros [Hc Hs]%andb_true_iff. rewrite (Hpq _ Hc). by apply IH.
Qed.

(** ** The matcher decides the language

    The classical argument for derivatives: [nullable] decides the empty
    string, and the language of [deriv c r] is the language of [r] after a
    leading [c]. *)

Lemma nullable_Lang r : nullable r = true <-> Lang r "".
Proof.
  induction r as [| |p|r1 IH1 r2 IH2|r1 IH1 r2 IH2|r IH]; simpl.
  - split; [discriminate|]. inversion 1.
  - split; [constructor|done].
  - split; [discriminate|]. inversion 1.
  - rewrite andb_true_iff, IH1, IH2. split.
    + intros [H1 H2]. apply (Lang_Cat _ _ "" "" H1 H2).
    + inversion 1 as [| |? ? s1 s2 H1 H2 Heq| | | |]; subst.
      match goal with H : _ +:+ _ = "" |- _ => apply str_app_eq_nil in H as [-> ->] end.
      done.
  - rewrite orb_true_iff, IH1, IH2. split.
    + intros [H|H]; [by apply Lang_Alt_l|by apply Lang_Alt_r].
    + inversion 1; subst; auto.
  - split; [constructor|done].
Qed.

Lemma Lang_Cat_inv r1 r2 c s :
  Lang (Cat r1 r2) (String c s) ->
  (exists s1 s2, s = s1 +:+ s2 /\ Lang r1 (String c s1) /\ Lang r2 s2)
  \/ (Lang r1 "" /\ Lang r2 (String c s)).
Proof.
  inversion 1 as [| |? ? s1 s2 H1 H2 Heq| | | |]; subst.
  destruct s1 as [|c1 s1].
  - right. rewrite str_app_nil_l in *. by subst.
  - left. rewrite str_app_cons in *. simplify_eq. eauto.
Qed.

Lemma Lang_Star_inv r c s :
  Lang (Star r) (String c s) ->
  exists s1 s2, s = s1 +:+ s2 /\ Lang r (String c s1) /\ Lang (Star r) s2.
Proof.
  intros H. remember (Star r) as r' eqn:Hr. remember (String c s) as s' eqn:Hs.
  revert Hr Hs.
  induction H as [| | | | | |r0 s1 s2 H1 _ H2 IH2]; try discriminate.
  intros [= ->] Hs. destruct s1 as [|c1 s1].
  - rewrite str_app_nil_l in Hs. by apply IH2.
  - rewrite str_app_cons in Hs. simplify_eq. eauto.
Qed.

Lemma deriv_Lang r : forall c s, Lang (deriv c r) s <-> Lang r (String c s).
Proof.
  induction r as [| |p|r1 IH1 r2 IH2|r1 IH1 r2 IH2|r IH]; intros c s; simpl.
  - split; inversion 1.
  - split; inversion 1.
  - destruct (p c) eqn:Hp; split.
    + inversion 1; subst. by constructor.
    + inversion 1; subst. constructor.
    + inversion 1.
    + inversion 1; subst. congruence.
  - split.
    + destruct (nullable r1) eqn:Hn.
      * inversion 1 as [| | |? ? ? HL|? ? ? HR| |]; subst.
        -- inversion HL as [| |? ? s1 s2 H1 H2 Heq| | | |]; subst.
           apply IH1 in H1. apply (Lang_Cat _ _ (String c s1) s2 H1 H2).
        -- apply IH2 in HR. apply nullable_Lang in Hn.
           apply (Lang_Cat _ _ "" _ Hn HR).
      * inversion 1 as [| |? ? s1 s2 H1 H2 Heq| | | |]; subst.
        apply IH1 in H1. apply (Lang_Cat _ _ (String c s1) s2 H1 H2).
    + intros [(s1 & s2 & -> & H1 & H2)|[H1 H2]]%Lang_Cat_inv.
      * apply IH1 in H1. destruct (nullable r1); [apply Lang_Alt_l|]; by constructor.
      * apply nullable_Lang in H1. rewrite H1. apply Lang_Alt_r. by apply IH2.
  - split.
    + inversion 1; subst; [apply Lang_Alt_l; by apply IH1|apply Lang_Alt_r; by apply IH2].
    + inversion 1; subst; [apply Lang_Alt_l; by apply IH1|apply Lang_Alt_r; by apply IH2].
  - split.
    + inversion 1 as [| |? ? s1 s2 H1 H2 Heq| | | |]; subst.
      apply IH in H1. apply (Lang_Star_app _ (String c s1) s2 H1 H2).
    + intros (s1 & s2 & -> & H1 & H2)%Lang_Star_inv.
      apply IH in H1. by constructor.
Qed.

Lemma MatchString_Lang s : forall r, MatchString r s = true <-> Lang r s.
Proof.
  induction s as [|c s IH]; intros r; simpl.
  - apply nullable_Lang.
  - rewrite IH. apply deriv_Lang.
Qed.

Lemma Lang_Star_Class p s : Lang (Star (Class p)) s <-> all_chars p s = true.
Proof.
  split.
  - intros H. remember (Star (Class p)) as r eqn:Hr. revert Hr.
    induction H as [| | | | | |r0 s1 s2 H1 _ H2 IH2]; try discriminate; [done|].
    intros [= ->]. inversion H1; subst. rewrite str_app_cons, str_app_nil_l. simpl.
    rewrite IH2 by done. by rewrite andb_true_r.
  - induction s as [|c s IH]; simpl; [constructor|].
    intros [Hc Hs]%andb_true_iff.
    apply (Lang_Star_app _ (String c "") s); [by constructor|by apply IH].
Qed.

Lemma Lang_Plus_Class p s : Lang (Plus (Class p)) s <-> s <> "" /\ all_chars p s = true.
Proof.
  unfold Plus. split.
  - inversion 1 as [| |? ? s1 s2 H1 H2 Heq| | | |]; subst.
    inversion H1; subst. apply Lang_Star_Class in H2.
    rewrite str_app_cons, str_app_nil_l. simpl. split; [done|]. by rewrite H2, andb_true_r.
  - intros [Hne Hall]. destruct s as [|c s]; [done|]. simpl in Hall.
    apply andb_true_iff in Hall as [Hc Hs].
    apply (Lang_Cat _ _ (String c "") s); [by constructor|by apply Lang_Star_Class].
Qed.

Lemma Lang_Chr c s : Lang (Chr c) s <-> s = String c "".
Proof.
  unfold Chr. split.
  - inversion 1; subst. by match goal with H : Ascii.eqb _ _ = true |- _ => apply Ascii.eqb_eq in H as -> end.
  - intros ->. constructor. apply Ascii.eqb_refl.
Qed.

Lemma is_words_spec s : is_words s = true <-> s <> "" /\ all_chars is_word s = true.
Proof.
  unfold is_words. rewrite andb_true_iff, negb_true_iff, String.eqb_neq. done.
Qed.

Lemma feed_pattern_spec to :
  MatchString feed_pattern to = true <->
  exists slug uid, to = slug +:+ ":" +:+ uid /\ is_words slug = true /\ is_words uid = true.
Proof.
  rewrite MatchString_Lang. unfold feed_pattern. split.
  - inversion 1 as [| |? ? s1 s2 H1 H2 Heq| | | |]; subst.
    inversion H2 as [| |? ? s3 s4 H3 H4 Heq| | | |]; subst.
    apply Lang_Chr in H3 as ->.
    exists s1, s4. rewrite !is_words_spec. by rewrite <-!Lang_Plus_Class.
  - intros (slug & uid & -> & H1 & H2). rewrite is_words_spec, <-Lang_Plus_Class in H1, H2.
    constructor; [done|]. constructor; [by apply Lang_Chr|done].
Qed.

Lemma feed_token_pattern_spec to :
  MatchString feed_token_pattern to = true <->
  exists slug uid rest, to = slug +:+ ":" +:+ uid +:+ " " +:+ rest
    /\ is_words slug = true /\ is_words uid = true /\ all_chars is_dot rest = true.
Proof.
  rewrite MatchString_Lang. unfold feed_token_pattern. split.
  - inversion 1 as [| |? ? s1 s2 H1 H2 Heq| | | |]; subst.
    inversion H2 as [| |? ? s3 s4 H3 H4 Heq| | | |]; subst.
    inversion H4 as [| |? ? s5 s6 H5 H6 Heq| | | |]; subst.
    inversion H6 as [| |? ? s7 s8 H7 H8 Heq| | | |]; subst.
    apply Lang_Chr in H3 as ->. apply Lang_Chr in H7 as ->.
    exists s1, s5, s8. rewrite !is_words_spec. rewrite <-!Lang_Plus_Class, <-Lang_Star_Class. done.
  - intros (slug & uid & rest & -> & H1 & H2 & H3).
    rewrite is_words_spec, <-Lang_Plus_Class in H1, H2. rewrite <-Lang_Star_Class in H3.
    constructor; [done|]. constructor; [by apply Lang_Chr|].
    constructor; [done|]. constructor; [by apply Lang_Chr|done].
Qed.

(** ** [strings.Split] *)

Lemma Split_nonempty s sep : Split s sep <> [].
Proof.
  destruct s as [|c s]; simpl; [done|].
  destruct (Ascii.eqb c sep); [done|]. by destruct (Split s sep).
Qed.

Lemma Split_head s sep : exists pieces, Split s sep = before sep s :: pieces.
Proof.
  induction s as [|c s [pieces IH]]; simpl; [by exists []|].
  destruct (Ascii.eqb c sep); [eauto|]. rewrite IH. eauto.
Qed.

Lemma Split_app a rest sep :
  all_chars (is_not sep) a = true ->
  Split (a +:+ String sep rest) sep = a :: Split rest sep.
Proof.
  induction a as [|c a IH].
  - intros _. rewrite str_app_nil_l. simpl. by rewrite Ascii.eqb_refl.
  - simpl all_chars. unfold is_not at 1. intros [Hc Ha]%andb_true_iff.
    rewrite str_app_cons. simpl Split. apply negb_true_iff in Hc. rewrite Hc.
    by rewrite IH.
Qed.

Lemma Split_none a sep : all_chars (is_not sep) a = true -> Split a sep = [a].
Proof.
  induction a as [|c a IH]; simpl; [done|].
  unfold is_not at 1. intros [Hc Ha]%andb_true_iff.
  apply negb_true_iff in Hc. rewrite Hc. by rewrite IH.
Qed.

Lemma before_app a s sep :
  all_chars (is_not sep) a = true -> before sep (a +:+ s) = a +:+ before sep s.
Proof.
  induction a as [|c a IH]; [done|]. simpl all_chars.
  unfold is_not at 1. intros [Hc Ha]%andb_true_iff.
  rewrite !str_app_cons. simpl before. apply negb_true_iff in Hc. rewrite Hc. by rewrite IH.
Qed.

Lemma before_none a sep : all_chars (is_not sep) a = true -> before sep a = a.
Proof.
  intros H. rewrite <-(str_app_nil_r a) at 1. rewrite before_app by done. simpl.
  apply str_app_nil_r.
Qed.

Lemma before_no_sep sep s : all_chars (is_not sep) (before sep s) = true.
Proof.
  induction s as [|c s IH]; simpl; [done|].
  destruct (Ascii.eqb c sep) eqn:Hc; simpl; [done|].
  unfold is_not at 1. by rewrite Hc, IH.
Qed.

Lemma is_word_not_colon c : is_word c = true -> is_not ":" c = true.
Proof. destruct c as [[] [] [] [] [] [] [] []]; vm_compute; congruence. Qed.
Lemma is_word_not_space c : is_word c = true -> is_not " " c = true.
Proof. destruct c as [[] [] [] [] [] [] [] []]; vm_compute; congruence. Qed.

Lemma is_words_no_colon s : is_words s = true -> all_chars (is_not ":") s = true.
Proof.
  intros [_ H]%is_words_spec. revert H. apply all_chars_impl, is_word_not_colon.
Qed.
Lemma is_words_no_space s : is_words s = true -> all_chars (is_not " ") s = true.
Proof.
  intros [_ H]%is_words_spec. revert H. apply all_chars_impl, is_word_not_space.
Qed.


(** * Feed references *)

(** What [matchFeed] returns on a string of the form [slug:uid]. *)
Lemma matchFeed_words slug uid :
  is_words slug = true -> is_words uid = true ->
  matchFeed (slug +:+ ":" +:+ uid) = Done (Some (mkGeneralFeed slug uid "")).
Proof.
  intros Hs Hu. unfold matchFeed.
  assert (MatchString feed_pattern (slug +:+ ":" +:+ uid) = true) as ->
    by (apply feed_pattern_spec; eauto).
  change (":" +:+ uid) with (String ":" uid).
  rewrite Split_app by by apply is_words_no_colon.
  rewrite (Split_none uid) by by apply is_words_no_colon. reflexivity.
Qed.

(** What [matchFeedWithToken] returns on a string of the form
    [slug:uid rest]. *)
Lemma matchFeedWithToken_words slug uid rest :
  is_words slug = true -> is_words uid = true -> all_chars is_dot rest = true ->
  matchFeedWithToken (slug +:+ ":" +:+ uid +:+ " " +:+ rest)
  = Done (Some (mkGeneralFeed slug uid (before " " (before ":" rest)))).
Proof.
  intros Hs Hu Hr. unfold matchFeedWithToken.
  assert (MatchString feed_token_pattern (slug +:+ ":" +:+ uid +:+ " " +:+ rest) = true) as ->
    by (apply feed_token_pattern_spec; eauto 10).
  change (":" +:+ uid +:+ " " +:+ rest) with (String ":" (uid +:+ " " +:+ rest)).
  rewrite Split_app by by apply is_words_no_colon.
  destruct (Split_head (uid +:+ " " +:+ rest) ":") as [pieces ->].
  rewrite before_app by by apply is_words_no_colon.
  change (" " +:+ rest) with (String " " rest). simpl before.
  change (index (slug :: ?x :: pieces) 1) with (Done x). simpl mbind. unfold outcome_bind.
  rewrite Split_app by by apply is_words_no_space.
  destruct (Split_head (before ":" rest) " ") as [pieces' ->]. reflexivity.
Qed.

Lemma matchFeed_None to :
  MatchString feed_pattern to = false -> matchFeed to = Done None.
Proof. unfold matchFeed. by intros ->. Qed.
Lemma matchFeedWithToken_None to :
  MatchString feed_token_pattern to = false -> matchFeedWithToken to = Done None.
Proof. unfold matchFeedWithToken. by intros ->. Qed.

Lemma patterns_exclusive to :
  MatchString feed_pattern to = true -> MatchString feed_token_pattern to = true -> False.
Proof.
  intros (slug & uid & -> & Hs & Hu)%feed_pattern_spec
         (slug' & uid' & rest & Heq & Hs' & Hu' & _)%feed_token_pattern_spec.
  assert (all_chars (is_not " ") (slug +:+ ":" +:+ uid) = true) as Hno.
  { rewrite !all_chars_app. rewrite (is_words_no_space slug), (is_words_no_space uid) by done.
    reflexivity. }
  rewrite Heq in Hno. rewrite !all_chars_app in Hno. simpl in Hno.
  rewrite !andb_false_r in Hno. discriminate.
Qed.

(** * The decoder *)

(** ** No panic *)

Lemma matchFeed_total to : exists r, matchFeed to = Done r.
Proof.
  destruct (MatchString feed_pattern to) eqn:Hm.
  - apply feed_pattern_spec in Hm as (slug & uid & -> & Hs & Hu).
    rewrite matchFeed_words by done. eauto.
  - rewrite matchFeed_None by done. eauto.
Qed.

Lemma matchFeedWithToken_total to : exists r, matchFeedWithToken to = Done r.
Proof.
  destruct (MatchString feed_token_pattern to) eqn:Hm.
  - apply feed_token_pattern_spec in Hm as (slug & uid & rest & -> & Hs & Hu & Hr).
    rewrite matchFeedWithToken_words by done. eauto.
  - rewrite matchFeedWithToken_None by done. eauto.
Qed.

Lemma To_loop_total tos : forall feed, exists feeds, To_loop feed tos = Done feeds.
Proof.
  induction tos as [|to tos IH]; intros feed; simpl; [by eexists|].
  destruct (matchFeed_total to) as [m1 ->].
  destruct (matchFeedWithToken_total to) as [m2 ->]. simpl. apply IH.
Qed.

Lemma payload_To_feeds_of p : payload_To p = Done (feeds_of p).
Proof.
  unfold feeds_of. destruct (To_loop_total (payload_to1D p) []) as [feeds H].
  unfold payload_To. by rewrite H.
Qed.

Ltac body_cases key :=
  unfold UnmarshalJSON_body; simpl;
  generalize (ToLower key); intros lowerKey;
  repeat match goal with
    | |- context [if is_null ?v then _ else _] => destruct (is_null v) eqn:?
    | |- context [String.eqb lowerKey ?s] =>
        destruct (String.eqb_spec lowerKey s) as [->|?]; simpl
    end;
  rewrite ?payload_To_feeds_of; simpl.

Lemma UnmarshalJSON_body_total key value a md :
  exists a' md', UnmarshalJSON_body key value a md = Done (a', md').
Proof.
  body_cases key; by do 2 eexists.
Qed.

Lemma UnmarshalJSON_range_total entries :
  forall a md, exists a' md', UnmarshalJSON_range entries a md = Done (a', md').
Proof.
  induction entries as [|[key value] rest IH]; intros a md; simpl; [by do 2 eexists|].
  destruct (UnmarshalJSON_body_total key value a md) as (a1 & md1 & ->). simpl. apply IH.
Qed.

(** The metadata after one member. *)
Lemma UnmarshalJSON_body_metadata key value a md a' md' :
  UnmarshalJSON_body key value a md = Done (a', md') ->
  md' = if to_metadata (key, value) then <[key := Unmarshal_interface value]> md else md.
Proof.
  unfold to_metadata, recognized. body_cases key; by intros [= <- <-].
Qed.

Section field.
Context {T : Type} (get : Activity -> T) (dec : payload -> T) (name : string).
Hypothesis Hbody : forall key value a md a1 md1,
  UnmarshalJSON_body key value a md = Done (a1, md1) ->
  get a1 = if hits name (key, value) then dec value else get a.

Lemma range_field_keep entries : forall a md a' md',
  UnmarshalJSON_range entries a md = Done (a', md') ->
  (forall kv, kv ∈ entries -> hits name kv = false) ->
  get a' = get a.
Proof.
  induction entries as [|[key value] rest IH]; intros a md a' md'; simpl.
  - by intros [= <- <-].
  - destruct (UnmarshalJSON_body_total key value a md) as (a1 & md1 & Hb).
    rewrite Hb. simpl. intros Hr Hno.
    rewrite (IH _ _ _ _ Hr) by (intros; apply Hno; by right).
    rewrite (Hbody _ _ _ _ _ _ Hb), Hno; [done|by left].
Qed.

Lemma range_field_inv (x : T) entries : forall a md a' md',
  UnmarshalJSON_range entries a md = Done (a', md') ->
  (forall kv, kv ∈ entries -> hits name kv = true -> dec kv.2 = x) ->
  get a = x \/ (exists kv, kv ∈ entries /\ hits name kv = true) ->
  get a' = x.
Proof.
  induction entries as [|[key value] rest IH]; intros a md a' md'; simpl.
  - intros [= <- <-] _ [?|(kv & Hin & _)]; [done|]. by apply elem_of_nil in Hin.
  - destruct (UnmarshalJSON_body_total key value a md) as (a1 & md1 & Hb).
    rewrite Hb. simpl. intros Hr Hall Hsome.
    apply (IH _ _ _ _ Hr); [intros; apply Hall; [by right|done]|].
    rewrite (Hbody _ _ _ _ _ _ Hb).
    destruct (hits name (key, value)) eqn:Hh.
    + left. apply (Hall (key, value)); [by left|done].
    + destruct Hsome as [?|(kv & Hin & Hkv)]; [by left|].
      apply elem_of_cons in Hin as [->|Hin]; [congruence|]. right. eauto.
Qed.

Lemma range_field_set (x : T) entries a md a' md' :
  UnmarshalJSON_range entries a md = Done (a', md') ->
  (forall kv, kv ∈ entries -> hits name kv = true -> dec kv.2 = x) ->
  (exists kv, kv ∈ entries /\ hits name kv = true) ->
  get a' = x.
Proof. intros Hr Hall Hsome. eapply range_field_inv; eauto. Qed.
End field.

Ltac field_body :=
  intros key value a md a1 md1; unfold hits; body_cases key; by intros [= <- <-].

Lemma body_ID : forall key value a md a1 md1,
  UnmarshalJSON_body key value a md = Done (a1, md1) ->
  ID a1 = if hits "id" (key, value) then payload_String value else ID a.
Proof. field_body. Qed.
Lemma body_Actor : forall key value a md a1 md1,
  UnmarshalJSON_body key value a md = Done (a1, md1) ->
  Actor a1 = if hits "actor" (key, value) then payload_String value else Actor a.
Proof. field_body. Qed.
Lemma body_Verb : forall key value a md a1 md1,
  UnmarshalJSON_body key value a md = Done (a1, md1) ->
  Verb a1 = if hits "verb" (key, value) then payload_String value else Verb a.
Proof. field_body. Qed.
Lemma body_Object : forall key value a md a1 md1,
  UnmarshalJSON_body key value a md = Done (a1, md1) ->
  Object a1 = if hits "object" (key, value) then payload_String value else Object a.
Proof. field_body. Qed.
Lemma body_Target : forall key value a md a1 md1,
  UnmarshalJSON_body key value a md = Done (a1, md1) ->
  Target a1 = if hits "target" (key, value) then payload_String value else Target a.
Proof. field_body. Qed.
Lemma body_Origin : forall key value a md a1 md1,
  UnmarshalJSON_body key value a md = Done (a1, md1) ->
  Origin a1 = if hits "origin" (key, value) then payload_String value else Origin a.
Proof. field_body. Qed.
Lemma body_ForeignID : forall key value a md a1 md1,
  UnmarshalJSON_body key value a md = Done (a1, md1) ->
  ForeignID a1 = if hits "foreign_id" (key, value) then payload_String value else ForeignID a.
Proof. field_body. Qed.
Lemma body_TimeStamp : forall key value a md a1 md1,
  UnmarshalJSON_body key value a md = Done (a1, md1) ->
  TimeStamp a1 = if hits "time" (key, value) then payload_TimeStamp value else TimeStamp a.
Proof. field_body. Qed.
Lemma body_Data : forall key value a md a1 md1,
  UnmarshalJSON_body key value a md = Done (a1, md1) ->
  Data a1 = if hits "data" (key, value) then Some (Valid value) else Data a.
Proof. field_body. Qed.
Lemma body_To : forall key value a md a1 md1,
  UnmarshalJSON_body key value a md = Done (a1, md1) ->
  To a1 = if hits "to" (key, value) then feeds_of value else To a.
Proof. field_body. Qed.

(** ** The metadata after the loop *)

Lemma UnmarshalJSON_range_metadata entries :
  NoDup entries.*1 -> forall a md a' md',
  UnmarshalJSON_range entries a md = Done (a', md') ->
  md' = (Unmarshal_interface
           <$> filter (fun kv => to_metadata kv = true)
                 (list_to_map entries : gmap string json)) ∪ md.
Proof.
  induction entries as [|[key value] rest IH]; simpl; intros Hnd a md a' md'.
  - intros [= <- <-]. by rewrite map_filter_empty, fmap_empty, (left_id_L ∅ (∪)).
  - apply NoDup_cons in Hnd as [Hkey Hnd].
    destruct (UnmarshalJSON_body_total key value a md) as (a1 & md1 & Hb).
    rewrite Hb. simpl. intros Hr. apply (IH Hnd) in Hr as ->.
    apply UnmarshalJSON_body_metadata in Hb as ->.
    assert ((list_to_map rest : gmap string json) !! key = None) as Hnone
      by by apply not_elem_of_list_to_map_1.
    destruct (to_metadata (key, value)) eqn:Hm.
    + rewrite map_filter_insert_True by done.
      rewrite fmap_insert, <-insert_union_l. rewrite <-insert_union_r; [done|].
      rewrite lookup_fmap. by rewrite map_lookup_filter_None_2 by by left.
    + rewrite map_filter_insert_False.
      * by rewrite delete_id.
      * apply not_true_iff_false. exact Hm.
Qed.

(** The metadata of a decoded object: its members that are neither null nor
    recognized, whatever the order of the loop. *)
Lemma UnmarshalJSON_range_metadata_map (m : gmap string json) order a a' md' :
  order ≡ₚ map_to_list m ->
  UnmarshalJSON_range order a ∅ = Done (a', md') ->
  md' = Unmarshal_interface <$> filter (fun kv => to_metadata kv = true) m.
Proof.
  intros Hp Hr. apply UnmarshalJSON_range_metadata in Hr as ->.
  - rewrite (right_id_L ∅ (∪)). do 2 f_equal.
    rewrite <-(list_to_map_to_list m). apply list_to_map_proper; [|done].
    rewrite Hp. apply NoDup_fst_map_to_list.
  - rewrite Hp. apply NoDup_fst_map_to_list.
Qed.

Lemma elem_of_order (m : gmap string json) order kv :
  order ≡ₚ map_to_list m -> kv ∈ order <-> m !! kv.1 = Some kv.2.
Proof. intros ->. destruct kv. apply elem_of_map_to_list. Qed.

Lemma iteration_order_singleton order (k : string) (v : json) :
  iteration_order order -> order {[k := v]} = [(k, v)].
Proof.
  intros H. specialize (H {[k := v]}). rewrite map_to_list_singleton in H.
  by apply Permutation_singleton_r in H.
Qed.

(** The two ways [UnmarshalJSON] ends: with the error of the first
    [json.Unmarshal] and the receiver untouched, or after the loop. *)
Lemma UnmarshalJSON_inv order a b :
  iteration_order order ->
  (exists e, Unmarshal_rawPayload b = inl e /\ UnmarshalJSON order a b = Done (a, Some e))
  \/ (exists m entries a1 md,
        Unmarshal_rawPayload b = inr m /\ entries ≡ₚ map_to_list m
        /\ UnmarshalJSON_range entries a ∅ = Done (a1, md)
        /\ UnmarshalJSON order a b = Done (set_MetaData (Some md) a1, None)).
Proof.
  intros Ho. unfold UnmarshalJSON.
  destruct (Unmarshal_rawPayload b) as [e|m]; [left; eauto|right].
  destruct (UnmarshalJSON_range_total (order m) a ∅) as (a1 & md & Hr).
  exists m, (order m), a1, md. rewrite Hr. auto.
Qed.

Lemma Unmarshal_rawPayload_error b :
  (exists e, Unmarshal_rawPayload b = inl e) <-> object_or_null b = false.
Proof.
  destruct b as [|[]]; simpl; split; try done; try (intros [? [=]]); eauto.
Qed.

Lemma to_metadata_true k v :
  to_metadata (k, v) = true <-> is_null v = false /\ recognized (ToLower k) = false.
Proof.
  unfold to_metadata. simpl. by rewrite andb_true_iff, !negb_true_iff.
Qed.

Lemma payload_TimeStamp_unparseable v :
  unparseable_time v -> payload_TimeStamp v = None.
Proof.
  intros H. destruct v; try reflexivity. unfold payload_TimeStamp. simpl. by apply H.
Qed.

#[local] Set Warnings "-clear-no-such-hyp,-unused-intro-pattern".

(** * Values on the wire *)

(** ** Strings *)

Lemma valid_utf8_spec s : valid_utf8 s = true <-> appendString s = s.
Proof. unfold valid_utf8. apply String.eqb_eq. Qed.

Lemma appendString_ascii_app a s :
  all_chars (in_range 0 127) a = true -> appendString (a +:+ s) = a +:+ appendString s.
Proof.
  induction a as [|c a IH]; [by rewrite !str_app_nil_l|].
  cbn [all_chars]. intros [Hc Ha]%andb_true_iff. rewrite !str_app_cons.
  cbn [appendString rune_size]. rewrite Hc. by rewrite IH.
Qed.

Lemma appendString_ascii a :
  all_chars (in_range 0 127) a = true -> appendString a = a.
Proof.
  intros H. rewrite <-(str_app_nil_r a) at 1. rewrite appendString_ascii_app by done.
  by rewrite str_app_nil_r.
Qed.

Lemma is_word_ascii c : is_word c = true -> in_range 0 127 c = true.
Proof. destruct c as [[] [] [] [] [] [] [] []]; by vm_compute. Qed.

Lemma is_digit_ascii c : is_digit c = true -> in_range 0 127 c = true.
Proof. destruct c as [[] [] [] [] [] [] [] []]; by vm_compute. Qed.

Lemma is_words_ascii s : is_words s = true -> all_chars (in_range 0 127) s = true.
Proof.
  unfold is_words. intros [_ H]%andb_true_iff. revert H. apply all_chars_impl.
  apply is_word_ascii.
Qed.

(** The string of a feed whose slug and user are words is written as it is
    when its token is. *)
Lemma appendString_to_string f :
  feed_ok f = true -> valid_utf8 (token f) = true ->
  appendString (to_string f) = to_string f.
Proof.
  destruct f as [slug uid tok]. unfold feed_ok, to_string, Feed_FeedID, Feed_Token, Value.
  simpl. intros [[Hs%is_words_ascii Hu%is_words_ascii]%andb_true_iff _]%andb_true_iff
    Ht%valid_utf8_spec.
  assert (all_chars (in_range 0 127) (slug +:+ ":" +:+ uid) = true) as Hid.
  { rewrite !all_chars_app, Hs, Hu. reflexivity. }
  destruct (String.eqb tok ""); simpl.
  - exact (appendString_ascii _ Hid).
  - rewrite appendString_ascii_app by done.
    change (" " +:+ tok) with (String " " tok).
    cbn [appendString rune_size]. change (in_range 0 127 " ") with true. cbn iota.
    by rewrite Ht.
Qed.

(** ** Maps *)

Lemma foldl_insert_keys (l : list (string * json)) : forall m0,
  (forall kv, kv ∈ l -> appendString kv.1 = kv.1) ->
  foldl (fun (m : gmap string json) (kv : string * json) =>
           <[appendString kv.1 := kv.2]> m) m0 l
  = foldl (fun (m : gmap string json) (kv : string * json) => <[kv.1 := kv.2]> m) m0 l.
Proof.
  induction l as [|kv l IH]; intros m0 Hl; simpl; [done|].
  rewrite (Hl kv) by by left. apply IH. intros kv' Hin. apply Hl. by right.
Qed.

Lemma foldl_insert_list_to_map (l : list (string * json)) : forall m0,
  NoDup l.*1 ->
  foldl (fun (m : gmap string json) (kv : string * json) => <[kv.1 := kv.2]> m) m0 l
  = list_to_map l ∪ m0.
Proof.
  induction l as [|[k v] l IH]; intros m0 Hnd; simpl.
  - by rewrite (left_id_L ∅ (∪)).
  - apply NoDup_cons in Hnd as [Hk Hnd]. rewrite IH by done.
    rewrite <-insert_union_l. rewrite <-insert_union_r; [done|].
    by apply not_elem_of_list_to_map_1.
Qed.

(** A map whose values all have a JSON form and whose keys are valid UTF-8
    is written as the object of these forms. *)
Lemma Marshal_members_Some (wm : gmap string json) :
  (forall k, is_Some (wm !! k) -> appendString k = k) ->
  Marshal_members (Some <$> wm) = Some (JObject wm).
Proof.
  intros Hkeys. unfold Marshal_members.
  set (sorted := merge_sort key_le (map_to_list (Some <$> wm))).
  set (g := fun kv : string * option json => (kv.1, default JNull kv.2)).
  assert (sorted ≡ₚ prod_map id Some <$> map_to_list wm) as Hperm.
  { unfold sorted. by rewrite merge_sort_Permutation, map_to_list_fmap. }
  assert (g <$> sorted ≡ₚ map_to_list wm) as Hkvs.
  { rewrite Hperm, <-list_fmap_compose.
    assert (g ∘ prod_map id Some <$> map_to_list wm = map_to_list wm) as ->; [|done].
    rewrite <-(list_fmap_id (map_to_list wm)) at 2.
    apply list_fmap_ext. by intros ? [k v]. }
  assert (mapM (fun kv : string * option json => v ← kv.2; Some (kv.1, v)) sorted
          = Some (g <$> sorted)) as ->.
  { apply mapM_Some. apply Forall2_fmap_r, Forall_Forall2_diag, Forall_forall.
    intros kv Hin. rewrite Hperm in Hin.
    apply list_elem_of_fmap in Hin as ([k v] & -> & _). done. }
  simpl. do 2 f_equal.
  rewrite foldl_insert_keys.
  - rewrite foldl_insert_list_to_map.
    + rewrite (right_id_L ∅ (∪)).
      transitivity (list_to_map (map_to_list wm) : gmap string json);
        [|apply list_to_map_to_list].
      apply list_to_map_proper; [|done]. rewrite Hkvs. apply NoDup_fst_map_to_list.
    + rewrite Hkvs. apply NoDup_fst_map_to_list.
  - intros [k v] Hin. rewrite Hkvs in Hin. apply elem_of_map_to_list in Hin.
    apply Hkeys. by eexists.
Qed.

Lemma Marshal_members_is_Some (members : gmap string (option json)) :
  is_Some (Marshal_members members) <->
  (forall k o, members !! k = Some o -> is_Some o).
Proof.
  unfold Marshal_members.
  set (f := fun kv : string * option json => v ← kv.2; Some (kv.1, v)).
  assert (is_Some (mapM f (merge_sort key_le (map_to_list members))) <->
          (forall k o, members !! k = Some o -> is_Some o)) as <-.
  { rewrite mapM_is_Some, Forall_forall. split.
    - intros H k o Hk.
      assert ((k, o) ∈ merge_sort key_le (map_to_list members)) as Hin.
      { rewrite merge_sort_Permutation. by apply elem_of_map_to_list. }
      apply H in Hin as [kv Hkv]. unfold f in Hkv. simpl in Hkv.
      destruct o; [by eexists|done].
    - intros H [k o] Hin. rewrite merge_sort_Permutation in Hin.
      apply elem_of_map_to_list in Hin. destruct (H k o Hin) as [v ->]. by eexists. }
  destruct (mapM f _) as [kvs|]; simpl; [|done].
  split; intros _; by eexists.
Qed.

(** ** Values *)

Lemma Marshal_Slice l : Marshal (Slice l) = JArray <$> mapM Marshal l.
Proof. reflexivity. Qed.

Lemma Marshal_Map m : Marshal (Map m) = Marshal_members (Marshal <$> m).
Proof. reflexivity. Qed.

Lemma Unmarshal_interface_JArray l :
  Unmarshal_interface (JArray l) = Slice (map Unmarshal_interface l).
Proof. reflexivity. Qed.

Lemma Unmarshal_interface_JObject m :
  Unmarshal_interface (JObject m) = Map (Unmarshal_interface <$> m).
Proof. reflexivity. Qed.

(** The object written for a map whose values all have a JSON form and whose
    keys are valid UTF-8: the forms, under the same keys. *)
Lemma Marshal_Map_Some (m : gmap string any) :
  (forall k, is_Some (m !! k) -> appendString k = k) ->
  (forall k v, m !! k = Some v -> is_Some (Marshal v)) ->
  Marshal (Map m) = Some (JObject (omap Marshal m)).
Proof.
  intros Hkeys Hvals. rewrite Marshal_Map.
  assert (Marshal <$> m = Some <$> omap Marshal m) as ->.
  { apply map_eq. intros k. rewrite !lookup_fmap, lookup_omap.
    destruct (m !! k) as [v|] eqn:Hk; simpl; [|done].
    by destruct (Hvals k v Hk) as [j ->]. }
  apply Marshal_members_Some. intros k [j Hj]. apply Hkeys.
  rewrite lookup_omap in Hj. destruct (m !! k); [by eexists|done].
Qed.

(** A value that survives is read back from what is written for it. *)
Lemma survives_Marshal v :
  survives v -> exists j, Marshal v = Some j /\ Unmarshal_interface j = v.
Proof.
  induction 1 as [|b|f lit Hf Hp|s Hs|l Hl IH|m Hk Hm IH].
  - by exists JNull.
  - by exists (JBool b).
  - exists (JNumber lit). simpl. by rewrite Hf, Hp.
  - exists (JString s). apply valid_utf8_spec in Hs. simpl. by rewrite Hs.
  - assert (exists js, mapM Marshal l = Some js /\ map Unmarshal_interface js = l)
      as (js & Hjs & Hback).
    { clear Hl. induction l as [|v l IHl]; [by exists []|].
      destruct (IH v) as (j & Hj & Hv); [by left|].
      destruct IHl as (js & Hjs & Hback); [intros; apply IH; by right|].
      exists (j :: js). cbn [mapM]. rewrite Hj, Hjs. simpl. by rewrite Hv, Hback. }
    exists (JArray js). rewrite Marshal_Slice, Hjs, Unmarshal_interface_JArray.
    by rewrite Hback.
  - exists (JObject (omap Marshal m)). split.
    + apply Marshal_Map_Some.
      * intros k Hin. by apply valid_utf8_spec, Hk.
      * intros k v Hv. destruct (IH k v Hv) as (j & -> & _). by eexists.
    + rewrite Unmarshal_interface_JObject. f_equal. apply map_eq. intros k.
      rewrite lookup_fmap, lookup_omap. destruct (m !! k) as [v|] eqn:Hv; simpl; [|done].
      destruct (IH k v Hv) as (j & -> & <-). done.
Qed.

(** A value that survives and is not nil is not written as [null]. *)
Lemma survives_not_null v j :
  survives v -> v <> Nil -> Marshal v = Some j -> is_null j = false.
Proof.
  intros Hs Hv Hj. destruct (survives_Marshal v Hs) as (j' & Hj' & Hback).
  assert (j' = j) as -> by congruence. by destruct j.
Qed.

(** ** Induction on JSON values *)

Lemma json_size_elem l v :
  v ∈ l -> json_size v < json_size (JArray l).
Proof.
  cbn [json_size]. induction l as [|x l IH]; [by intros ?%elem_of_nil|].
  intros [->|Hin]%elem_of_cons; simpl; [lia|]. specialize (IH Hin). lia.
Qed.

Lemma json_size_member (m : gmap string json) k v :
  m !! k = Some v -> json_size v < json_size (JObject m).
Proof.
  intros Hk. cbn [json_size].
  rewrite (map_fold_delete_L _ _ k v m); [lia| |done].
  intros. lia.
Qed.

Lemma json_induction (P : json -> Prop) :
  P JNull -> (forall b, P (JBool b)) -> (forall lit, P (JNumber lit)) ->
  (forall s, P (JString s)) ->
  (forall l, (forall v, v ∈ l -> P v) -> P (JArray l)) ->
  (forall m, (forall k v, m !! k = Some v -> P v) -> P (JObject m)) ->
  forall j, P j.
Proof.
  intros Hnull Hbool Hnum Hstr Harr Hobj j.
  remember (json_size j) as n eqn:Hn. revert j Hn.
  induction n as [n IH] using lt_wf_ind. intros [| | | |l|m] ->; auto.
  - apply Harr. intros v Hin. apply (IH (json_size v)); [|done].
    by apply json_size_elem.
  - apply Hobj. intros k v Hk. apply (IH (json_size v)); [|done].
    by apply (json_size_member m k).
Qed.

(** ** Decoded values are written without error *)

Lemma ParseFloat_finite lit f :
  ParseFloat lit = Some f -> is_Some (floatEncoder f).
Proof.
  unfold ParseFloat, decimal_float64, round_float64. intros H.
  assert (match f with S754_zero _ | S754_finite _ _ _ => True | _ => False end) as Hf.
  { revert H. destruct (number_literal lit) as [[[neg n] k]|]; simpl; [|done].
    repeat case_match; intros [= <-]; done. }
  destruct f as [neg| | |neg m e]; try done.
  clear H Hf. unfold floatEncoder. repeat case_match; by eexists.
Qed.

Lemma Marshal_Unmarshal_interface j : is_Some (Marshal (Unmarshal_interface j)).
Proof.
  induction j as [|b|lit|s|l IH|m IH] using json_induction; try by eexists.
  - simpl. destruct (ParseFloat lit) as [f|] eqn:Hf; [|by eexists].
    simpl. destruct (ParseFloat_finite lit f Hf) as [s ->]. by eexists.
  - rewrite Unmarshal_interface_JArray, Marshal_Slice.
    apply fmap_is_Some, mapM_is_Some, Forall_forall.
    intros v (j & -> & Hin)%list_elem_of_fmap. by apply IH.
  - rewrite Unmarshal_interface_JObject, Marshal_Map.
    apply Marshal_members_is_Some. intros k o.
    rewrite !lookup_fmap. destruct (m !! k) as [v|] eqn:Hk; simpl; [|done].
    intros [= <-]. by apply (IH k).
Qed.

(** ** Keys that are ASCII *)

Lemma appendString_head b0 s1 :
  in_range 0 127 b0 = false ->
  exists c t, appendString (String b0 s1) = String c t /\ in_range 0 127 c = false.
Proof.
  intros Hb. cbn [appendString].
  destruct (rune_size (String b0 s1)) as [|[|[|[|[|n]]]]];
    destruct s1 as [|b1 [|b2 [|b3 s4]]];
    first [ by do 2 eexists; split; [reflexivity|exact Hb]
          | by do 2 eexists; split; [reflexivity|reflexivity] ].
Qed.

(** No other key is written as a key that is ASCII. *)
Lemma appendString_ascii_inv k : forall k1,
  all_chars (in_range 0 127) k = true -> appendString k1 = k -> k1 = k.
Proof.
  induction k as [|c k IH]; intros [|b0 s1] Hk Heq; try done.
  - destruct (in_range 0 127 b0) eqn:Hb.
    + cbn [appendString rune_size] in Heq. by rewrite Hb in Heq.
    + by destruct (appendString_head b0 s1 Hb) as (c & t & Hc & _); rewrite Hc in Heq.
  - cbn [all_chars] in Hk. apply andb_true_iff in Hk as [Hc Hk].
    destruct (in_range 0 127 b0) eqn:Hb.
    + cbn [appendString rune_size] in Heq. rewrite Hb in Heq.
      injection Heq as -> Heq. f_equal. by apply IH.
    + destruct (appendString_head b0 s1 Hb) as (c' & t & Hc' & Hn).
      rewrite Hc' in Heq. injection Heq as -> _. congruence.
Qed.

Lemma foldl_insert_lookup_ascii k (l : list (string * json)) : forall m0,
  all_chars (in_range 0 127) k = true -> NoDup l.*1 ->
  foldl (fun (m : gmap string json) (kv : string * json) =>
           <[appendString kv.1 := kv.2]> m) m0 l !! k
  = (list_to_map l ∪ m0) !! k.
Proof.
  intros m0 Hk. revert m0.
  induction l as [|[k1 v1] l IH]; intros m0 Hnd; simpl.
  - by rewrite (left_id_L ∅ (∪)).
  - apply NoDup_cons in Hnd as [Hk1 Hnd]. rewrite IH by done.
    assert ((list_to_map l : gmap string json) !! k1 = None) as Hnone
      by by apply not_elem_of_list_to_map_1.
    destruct (decide (k1 = k)) as [->|Hne].
    + rewrite (appendString_ascii k) by done.
      rewrite lookup_union_r by done. rewrite lookup_insert_eq.
      by rewrite (lookup_union_Some_l _ _ _ v1) by apply lookup_insert_eq.
    + assert (appendString k1 <> k) as Hne'.
      { intros Heq. by apply Hne, appendString_ascii_inv. }
      rewrite !lookup_union, lookup_insert_ne, lookup_insert_ne by done. done.
Qed.

Lemma mapM_members (sorted : list (string * option json)) kvs :
  mapM (fun kv : string * option json => v ← kv.2; Some (kv.1, v)) sorted = Some kvs ->
  sorted = prod_map id Some <$> kvs.
Proof.
  intros H%mapM_Some. induction H as [|[k o] [k' v] sorted kvs Hx _ IH]; [done|].
  simpl in *. destruct o as [v0|]; [|done]. injection Hx as -> ->. by rewrite IH.
Qed.

(** The object written for a map: under a key that is ASCII it has what is
    written for the value of that key. *)
Lemma Marshal_members_lookup (members : gmap string (option json)) j :
  Marshal_members members = Some j ->
  exists wm, j = JObject wm
    /\ forall k, all_chars (in_range 0 127) k = true -> wm !! k = mjoin (members !! k).
Proof.
  unfold Marshal_members.
  destruct (mapM _ _) as [kvs|] eqn:HmapM; [|done]. simpl. intros [= <-].
  eexists. split; [done|]. intros k Hk.
  apply mapM_members in HmapM.
  assert (prod_map id Some <$> kvs ≡ₚ map_to_list members) as Hperm.
  { by rewrite <-HmapM, merge_sort_Permutation. }
  assert (NoDup kvs.*1) as Hnd.
  { assert (kvs.*1 = (prod_map id Some <$> kvs).*1) as ->.
    { rewrite <-list_fmap_compose. by apply list_fmap_ext; intros ? [? ?]. }
    rewrite Hperm. apply NoDup_fst_map_to_list. }
  rewrite foldl_insert_lookup_ascii, (right_id_L ∅ (∪)) by done.
  destruct (list_to_map kvs !! k) as [v|] eqn:Hl.
  - apply elem_of_list_to_map in Hl; [|done].
    assert ((k, Some v) ∈ map_to_list members) as Hin.
    { rewrite <-Hperm. apply list_elem_of_fmap. by exists (k, v). }
    apply elem_of_map_to_list in Hin. by rewrite Hin.
  - destruct (members !! k) as [[v|]|] eqn:Hm; [| |done].
    + apply elem_of_map_to_list in Hm. rewrite <-Hperm in Hm.
      apply list_elem_of_fmap in Hm as ([k' v'] & [= -> ->] & Hin).
      apply (elem_of_list_to_map_1 kvs) in Hin; [congruence|done].
    + apply elem_of_map_to_list in Hm. rewrite <-Hperm in Hm.
      by apply list_elem_of_fmap in Hm as ([k' v'] & [=] & _).
Qed.

Lemma Marshal_Map_lookup (m : gmap string any) j :
  Marshal (Map m) = Some j ->
  exists wm, j = JObject wm
    /\ forall k, all_chars (in_range 0 127) k = true -> wm !! k = m !! k ≫= Marshal.
Proof.
  rewrite Marshal_Map. intros (wm & -> & Hwm)%Marshal_members_lookup.
  exists wm. split; [done|]. intros k Hk. rewrite (Hwm k Hk), lookup_fmap.
  by destruct (m !! k).
Qed.

(** [json.Marshal] fails on a map exactly when it fails on one of its
    values. *)
Lemma Marshal_Map_None (m : gmap string any) :
  Marshal (Map m) = None <-> exists k v, m !! k = Some v /\ Marshal v = None.
Proof.
  rewrite Marshal_Map, eq_None_not_Some, Marshal_members_is_Some. split.
  - intros Hnot. apply dec_stable. intros Hno. apply Hnot. intros k o.
    rewrite lookup_fmap. destruct (m !! k) as [v|] eqn:Hk; [|done].
    intros [= <-]. destruct (Marshal v) eqn:Hv; [by eexists|].
    destruct Hno. by exists k, v.
  - intros (k & v & Hk & Hv) Hall. destruct (Hall k None) as [? [=]].
    by rewrite lookup_fmap, Hk, <-Hv.
Qed.

Lemma Marshal_Map_values (m : gmap string any) j k v :
  Marshal (Map m) = Some j -> m !! k = Some v -> is_Some (Marshal v).
Proof.
  rewrite Marshal_Map. intros Hj Hk.
  apply (proj1 (Marshal_members_is_Some (Marshal <$> m)) (ex_intro _ j Hj) k).
  by rewrite lookup_fmap, Hk.
Qed.

(** * The encoder *)

#[local] Set Warnings "-clear-no-such-hyp,-unused-intro-pattern".

Lemma copy_metadata (m : gmap string any) :
  foldr (fun kv p => <[kv.1 := kv.2]> p) ∅ (map_to_list m) = m.
Proof. apply (list_to_map_to_list m). Qed.

Lemma insert_if_union c k v (m1 m2 : gmap string any) :
  insert_if c k v (m1 ∪ m2) = insert_if c k v m1 ∪ m2.
Proof. destruct c; simpl; [|done]. by rewrite insert_union_l. Qed.

Lemma insert_some_union k p (m1 m2 : gmap string any) :
  insert_some k p (m1 ∪ m2) = insert_some k p m1 ∪ m2.
Proof. destruct p; simpl; [|done]. by rewrite insert_union_l. Qed.

Lemma MarshalJSON_payload_union now a :
  MarshalJSON_payload now a = fields now a ∪ default ∅ (MetaData a).
Proof.
  unfold fields, MarshalJSON_payload. simpl.
  rewrite copy_metadata, map_to_list_empty. simpl.
  rewrite <-(left_id_L ∅ (∪) (default ∅ (MetaData a))) at 1.
  by rewrite !insert_union_l, !insert_if_union, insert_some_union, !insert_if_union,
    insert_union_l, insert_if_union.
Qed.

Lemma lookup_insert_if (c : bool) k0 v0 (m : gmap string any) k v :
  insert_if c k0 v0 m !! k = Some v <->
  (c = true /\ k = k0 /\ v = v0) \/ ((c = false \/ k <> k0) /\ m !! k = Some v).
Proof.
  destruct c; simpl; [rewrite lookup_insert_Some|]; naive_solver.
Qed.

Lemma lookup_insert_some k0 p (m : gmap string any) k v :
  insert_some k0 p m !! k = Some v <->
  (k = k0 /\ RawMessage <$> p = Some v) \/ ((p = None \/ k <> k0) /\ m !! k = Some v).
Proof.
  destruct p; simpl; [rewrite lookup_insert_Some|]; naive_solver.
Qed.

Lemma fields_lookup now a k v :
  fields now a !! k = Some v <->
  (k = "actor" /\ v = Str (Actor a))
  \/ (k = "verb" /\ v = Str (Verb a))
  \/ (k = "object" /\ v = Str (Object a))
  \/ (k = "origin" /\ v = Str (Origin a))
  \/ (k = "id" /\ ID a <> "" /\ v = Str (ID a))
  \/ (k = "target" /\ Target a <> "" /\ v = Str (Target a))
  \/ (k = "data" /\ RawMessage <$> Data a = Some v)
  \/ (k = "foreign_id" /\ ForeignID a <> "" /\ v = Str (ForeignID a))
  \/ (k = "time" /\ v = Str (Format (default now (TimeStamp a))))
  \/ (k = "to" /\ To a <> [] /\ v = Strings (map to_string (To a))).
Proof.
  unfold fields, MarshalJSON_payload. simpl. rewrite map_to_list_empty. simpl.
  rewrite !lookup_insert_if, lookup_insert_Some, lookup_insert_if, lookup_insert_some,
    !lookup_insert_if, !lookup_insert_Some, lookup_empty.
  rewrite !negb_true_iff, !negb_false_iff, !String.eqb_neq, !String.eqb_eq.
  assert ((0 <? List.length (map to_string (To a)))%nat = true <-> To a <> []) as ->.
  { destruct (To a); simpl; [split; [discriminate|done]|done]. }
  assert ((0 <? List.length (map to_string (To a)))%nat = false <-> To a = []) as ->.
  { destruct (To a); simpl; [done|split; discriminate]. }
  assert (match TimeStamp a with Some t => Format t | None => Format now end
          = Format (default now (TimeStamp a))) as -> by by destruct (TimeStamp a).
  unfold Value.
  split; [naive_solver|].
  intros H.
  repeat match goal with H : _ \/ _ |- _ => destruct H as [H|H] end;
    destruct_and?; subst;
    repeat first [ left; by repeat split
                 | right; split; [first [done | by right | by left]|] ].
Qed.

Lemma optional_key_intro now a key field :
  (forall v, fields now a !! key = Some v <-> field <> "" /\ v = Str field) ->
  optional_key (MarshalJSON_payload now a) (default ∅ (MetaData a)) key field.
Proof.
  intros Hf. rewrite MarshalJSON_payload_union.
  destruct (decide (field = "")) as [He|Hne].
  - assert (fields now a !! key = None) as Hnone.
    { apply eq_None_not_Some. intros [v Hv]. apply Hf in Hv as [? _]. done. }
    assert ((fields now a ∪ default ∅ (MetaData a)) !! key = default ∅ (MetaData a) !! key) as Hl.
    { by rewrite lookup_union_r. }
    split; [|split]; [|done|done]. rewrite Hl. naive_solver.
  - assert (fields now a !! key = Some (Str field)) as Hsome by by apply Hf.
    assert ((fields now a ∪ default ∅ (MetaData a)) !! key = Some (Str field)) as Hl.
    { by apply lookup_union_Some_l. }
    split; [|split]; [|done|done]. rewrite Hl. split; [by left|by eexists].
Qed.


(** ** Feeds written and read back *)

Lemma Unmarshal_string_elems_strings l :
  Unmarshal_string_elems (map JString l) = (l, None).
Proof. induction l as [|s l IH]; simpl; [done|]. by rewrite IH. Qed.

Lemma payload_to1D_strings l : payload_to1D (JArray (map JString l)) = l.
Proof. unfold payload_to1D. simpl. by rewrite Unmarshal_string_elems_strings. Qed.

Lemma token_chars tok :
  all_chars token_char tok = true ->
  all_chars (is_not " ") tok = true /\ all_chars (is_not ":") tok = true
  /\ all_chars is_dot tok = true.
Proof.
  intros H. repeat split; revert H; apply all_chars_impl; unfold token_char;
    intros c [[? ?]%andb_true_iff ?]%andb_true_iff; done.
Qed.

Lemma match_to_string f :
  feed_ok f = true ->
  (matchFeed (to_string f) = Done (Some f) /\ matchFeedWithToken (to_string f) = Done None)
  \/ (matchFeed (to_string f) = Done None /\ matchFeedWithToken (to_string f) = Done (Some f)).
Proof.
  destruct f as [slug uid tok]. unfold feed_ok, to_string, Feed_FeedID, Feed_Token, Value.
  simpl. intros [[Hs Hu]%andb_true_iff Ht]%andb_true_iff.
  apply token_chars in Ht as (Hsp & Hco & Hdot).
  destruct (String.eqb_spec tok "") as [->|Hne]; simpl.
  - left. rewrite matchFeed_words by done. split; [done|].
    apply matchFeedWithToken_None. apply not_true_iff_false. intros Hm.
    eapply patterns_exclusive; [|exact Hm]. apply feed_pattern_spec. eauto.
  - right. rewrite !str_app_assoc.
    rewrite matchFeedWithToken_words by done.
    rewrite (before_none tok ":"), (before_none tok " ") by done. split; [|done].
    apply matchFeed_None. apply not_true_iff_false. intros Hm.
    eapply patterns_exclusive; [exact Hm|]. apply feed_token_pattern_spec. eauto 10.
Qed.

Lemma To_loop_to_string fs : forall feed,
  Forall (fun f => feed_ok f = true) fs ->
  To_loop feed (map to_string fs) = Done (feed ++ fs)%list.
Proof.
  induction fs as [|f fs IH]; intros feed Hok; simpl; [by rewrite app_nil_r|].
  apply Forall_cons in Hok as [Hf Hfs].
  destruct (match_to_string f Hf) as [[-> ->]|[-> ->]]; simpl;
    rewrite IH by done; by rewrite <-app_assoc.
Qed.

Lemma feeds_of_to_string fs :
  Forall (fun f => feed_ok f = true) fs ->
  feeds_of (JArray (map JString (map to_string fs))) = fs.
Proof.
  intros Hok. unfold feeds_of, payload_To. rewrite payload_to1D_strings.
  by rewrite To_loop_to_string.
Qed.

(** ** The members of an encoded activity, decoded *)

Lemma fields_key_recognized now a k v :
  fields now a !! k = Some v -> recognized (ToLower k) = true /\ ToLower k = k.
Proof.
  rewrite fields_lookup. intros H.
  repeat match goal with H : _ \/ _ |- _ => destruct H as [H|H] end;
    destruct H as [-> _]; split; reflexivity.
Qed.

Lemma fields_at now a :
  fields now a !! "actor" = Some (Str (Actor a))
  /\ fields now a !! "verb" = Some (Str (Verb a))
  /\ fields now a !! "object" = Some (Str (Object a))
  /\ fields now a !! "origin" = Some (Str (Origin a))
  /\ fields now a !! "id" = (if String.eqb (ID a) "" then None else Some (Str (ID a)))
  /\ fields now a !! "target"
     = (if String.eqb (Target a) "" then None else Some (Str (Target a)))
  /\ fields now a !! "data" = RawMessage <$> Data a
  /\ fields now a !! "foreign_id"
     = (if String.eqb (ForeignID a) "" then None else Some (Str (ForeignID a)))
  /\ fields now a !! "time" = Some (Str (Format (default now (TimeStamp a))))
  /\ fields now a !! "to"
     = match To a with
       | [] => None
       | _ => Some (Strings (map to_string (To a)))
       end.
Proof.
  repeat split; apply option_eq; intros v; rewrite fields_lookup;
    repeat match goal with |- context [String.eqb ?x ""] => destruct (String.eqb_spec x "") end;
    try (destruct (To a) eqn:?); naive_solver.
Qed.

Lemma fields_key_valid now a k v :
  fields now a !! k = Some v -> appendString k = k.
Proof.
  rewrite fields_lookup. intros H.
  repeat match goal with H : _ \/ _ |- _ => destruct H as [H|H] end;
    destruct H as [-> _]; reflexivity.
Qed.

Lemma encoded_lookup now a k :
  encoded now a !! k = MarshalJSON_payload now a !! k ≫= Marshal.
Proof. unfold encoded. by rewrite lookup_omap. Qed.

Lemma encoded_lookup_field now a k v :
  fields now a !! k = Some v -> encoded now a !! k = Marshal v.
Proof.
  intros H. rewrite encoded_lookup, MarshalJSON_payload_union.
  by rewrite (lookup_union_Some_l _ _ _ _ H).
Qed.

Lemma payload_lookup_inv now a k v :
  MarshalJSON_payload now a !! k = Some v ->
  fields now a !! k = Some v \/ default ∅ (MetaData a) !! k = Some v.
Proof.
  rewrite MarshalJSON_payload_union. intros [?|[_ ?]]%lookup_union_Some_raw; auto.
Qed.

Lemma fields_Marshal now a k v :
  Data a <> Some Invalid -> fields now a !! k = Some v -> is_Some (Marshal v).
Proof.
  intros Hdata. rewrite fields_lookup. intros H.
  repeat match goal with H : _ \/ _ |- _ => destruct H as [H|H] end;
    destruct_and?; subst; try by eexists.
  destruct (Data a) as [[|j]|]; simplify_eq/=; by eexists.
Qed.

(** The bytes of an Activity whose metadata has keys of valid UTF-8 and
    values that [json.Marshal] can write, and whose [Data] is a JSON text: the
    object of the members written. *)
Lemma MarshalJSON_encoded now a :
  (forall k, is_Some (default ∅ (MetaData a) !! k) -> valid_utf8 k = true) ->
  (forall k v, default ∅ (MetaData a) !! k = Some v -> is_Some (Marshal v)) ->
  Data a <> Some Invalid ->
  MarshalJSON now a = Some (Valid (JObject (encoded now a))).
Proof.
  intros Hkeys Hvals Hdata.
  unfold MarshalJSON, encoded. rewrite Marshal_Map_Some; [done| |].
  - intros k [v [Hv|Hv]%payload_lookup_inv].
    + by apply (fields_key_valid now a k v).
    + apply valid_utf8_spec, Hkeys. by eexists.
  - intros k v [Hv|Hv]%payload_lookup_inv.
    + by apply (fields_Marshal now a k).
    + by apply (Hvals k).
Qed.

Section roundtrip.
Context (now : Time) (a : Activity).
Hypothesis Hmd :
  forall k v, default ∅ (MetaData a) !! k = Some v ->
    recognized (ToLower k) = false /\ valid_utf8 k = true /\ v <> Nil /\ survives v.

(** A member of the metadata is a member of the payload. *)
Lemma payload_lookup_metadata k v :
  default ∅ (MetaData a) !! k = Some v -> MarshalJSON_payload now a !! k = Some v.
Proof.
  intros Hk. rewrite MarshalJSON_payload_union. apply lookup_union_Some_raw. right.
  split; [|done]. apply eq_None_not_Some. intros [v' Hv'].
  apply fields_key_recognized in Hv' as [Hrec _].
  apply Hmd in Hk as [Hk _]. congruence.
Qed.

Lemma encoded_filter_metadata :
  Unmarshal_interface <$> filter (fun kv => to_metadata kv = true) (encoded now a)
  = default ∅ (MetaData a).
Proof.
  apply map_eq. intros k. rewrite lookup_fmap.
  destruct (default ∅ (MetaData a) !! k) as [v|] eqn:Hk.
  - pose proof (Hmd k v Hk) as (Hrec & _ & Hnil & Hs).
    destruct (survives_Marshal v Hs) as (j & Hj & Hback).
    assert (filter (fun kv => to_metadata kv = true) (encoded now a) !! k = Some j) as ->.
    { apply map_lookup_filter_Some. split.
      - by rewrite encoded_lookup, (payload_lookup_metadata k v Hk).
      - apply to_metadata_true. split; [|done]. by apply (survives_not_null v). }
    simpl. by rewrite Hback.
  - assert (filter (fun kv => to_metadata kv = true) (encoded now a) !! k = None) as ->;
      [|done].
    apply map_lookup_filter_None. destruct (encoded now a !! k) as [j|] eqn:Hj; [|by left].
    right. intros j' [= <-]. rewrite encoded_lookup in Hj.
    destruct (MarshalJSON_payload now a !! k) as [v|] eqn:Hv; [|done].
    apply payload_lookup_inv in Hv as [Hv|Hv]; [|congruence].
    apply fields_key_recognized in Hv as [Hrec _].
    intros [_ Hm]%to_metadata_true. congruence.
Qed.

Lemma encoded_hits name k j :
  recognized name = true ->
  encoded now a !! k = Some j -> hits name (k, j) = true ->
  fields now a !! name ≫= Marshal = Some j.
Proof.
  intros Hrec Hk [_ Hlow%String.eqb_eq]%andb_true_iff. simpl in Hlow.
  rewrite encoded_lookup in Hk.
  destruct (MarshalJSON_payload now a !! k) as [v|] eqn:Hv; [|done]. simpl in Hk.
  apply payload_lookup_inv in Hv as [Hv|Hv].
  - apply fields_key_recognized in Hv as Hk'. destruct Hk' as [_ Hk'].
    assert (k = name) as -> by congruence. by rewrite Hv.
  - apply Hmd in Hv as [Hv _]. congruence.
Qed.

Context (entries : list (string * json)) (a1 : Activity) (md1 : gmap string any).
Hypothesis Hentries : entries ≡ₚ map_to_list (encoded now a).
Hypothesis Hrange : UnmarshalJSON_range entries zero ∅ = Done (a1, md1).

Lemma roundtrip_field {T : Type} (get : Activity -> T) (dec : payload -> T)
    (name : string) (x : T) :
  (forall key value a md a1 md1,
     UnmarshalJSON_body key value a md = Done (a1, md1) ->
     get a1 = if hits name (key, value) then dec value else get a) ->
  recognized name = true -> ToLower name = name ->
  match fields now a !! name ≫= Marshal with
  | Some j => is_null j = false /\ dec j = x
  | None => get zero = x
  end ->
  get a1 = x.
Proof.
  intros Hbody Hrec Hlow Hf'.
  destruct (fields now a !! name ≫= Marshal) as [j0|] eqn:Hf.
  - destruct Hf' as [Hnull Hdec].
    apply (range_field_set get dec name Hbody x entries zero ∅ a1 md1 Hrange).
    + intros [k j] Hin Hh. apply (elem_of_order _ _ _ Hentries) in Hin.
      pose proof (encoded_hits name k j Hrec Hin Hh) as Hj.
      rewrite Hf in Hj. injection Hj as <-. done.
    + exists (name, j0). split.
      * apply (elem_of_order _ _ _ Hentries). simpl.
        destruct (fields now a !! name) as [v|] eqn:Hv; [|done].
        by rewrite (encoded_lookup_field now a name v Hv).
      * unfold hits. simpl. by rewrite Hnull, Hlow, String.eqb_refl.
  - rewrite <-Hf'.
    apply (range_field_keep get dec name Hbody entries zero ∅ a1 md1 Hrange).
    intros [k j] Hin. apply not_true_iff_false. intros Hh.
    apply (elem_of_order _ _ _ Hentries) in Hin.
    pose proof (encoded_hits name k j Hrec Hin Hh) as Hj. congruence.
Qed.
End roundtrip.


(** The strings of feeds that are read back are written as they are. *)
Lemma Marshal_to_strings fs :
  Forall (fun f => feed_ok f = true /\ valid_utf8 (token f) = true) fs ->
  Marshal (Strings (map to_string fs)) = Some (JArray (map JString (map to_string fs))).
Proof.
  intros H. simpl. do 2 f_equal. induction H as [|f fs [Hok Htok] _ IH]; [done|].
  simpl. by rewrite IH, appendString_to_string.
Qed.

(** An optional member of the payload, in the object written. *)
Lemma optional_member_intro now a m key field :
  MarshalJSON now a = Some (Valid (JObject m)) ->
  all_chars (in_range 0 127) key = true ->
  optional_key (MarshalJSON_payload now a) (default ∅ (MetaData a)) key field ->
  optional_member m (default ∅ (MetaData a)) key field.
Proof.
  unfold MarshalJSON. intros (j & Hj & [= <-])%fmap_Some Hkey (Hsome & Hfield & Hempty).
  pose proof Hj as Hj'. apply Marshal_Map_lookup in Hj' as (m' & [= <-] & Hm).
  unfold optional_member. rewrite <-Hsome, (Hm key Hkey). split; [|split].
  - destruct (MarshalJSON_payload now a !! key) as [v|] eqn:Hv; simpl.
    + split; [by eexists|]. intros _. by apply (Marshal_Map_values _ _ key v Hj).
    + split; by intros [? ?].
  - intros Hne. by rewrite (Hfield Hne).
  - intros He. by rewrite (Hempty He).
Qed.


Lemma Activity_eq a b :
  ID a = ID b -> Actor a = Actor b -> Verb a = Verb b -> Object a = Object b ->
  Target a = Target b -> Origin a = Origin b -> TimeStamp a = TimeStamp b ->
  ForeignID a = ForeignID b -> Data a = Data b -> MetaData a = MetaData b ->
  To a = To b -> a = b.
Proof. destruct a, b. simpl. by intros -> -> -> -> -> -> -> -> -> -> ->. Qed.


(** * The layout: what [Format] writes, [Parse] reads *)

#[local] Arguments digit_char : simpl never.
#[local] Arguments digit_val : simpl never.
#[local] Arguments is_digit : simpl never.
#[local] Arguments pow10 : simpl never.

Lemma pow10_S k : pow10 (S k) = (10 * pow10 k)%Z.
Proof. unfold pow10. rewrite Nat2Z.inj_succ, Z.pow_succ_r by lia. done. Qed.
Lemma pow10_pos k : (0 < pow10 k)%Z.
Proof. unfold pow10. apply Z.pow_pos_nonneg; lia. Qed.
Lemma pow10_add j k : pow10 (j + k) = (pow10 j * pow10 k)%Z.
Proof. unfold pow10. rewrite Nat2Z.inj_add, Z.pow_add_r by lia. done. Qed.

Lemma digit_char_spec d :
  (0 <= d <= 9)%Z ->
  is_digit (digit_char d) = true /\ digit_val (digit_char d) = d
  /\ (Ascii.eqb (digit_char d) "0" = true <-> d = 0%Z).
Proof.
  intros Hd.
  assert (d = 0 \/ d = 1 \/ d = 2 \/ d = 3 \/ d = 4 \/ d = 5 \/ d = 6 \/ d = 7
          \/ d = 8 \/ d = 9)%Z as H by lia.
  repeat (destruct H as [->|H]; [by vm_compute|]). subst. by vm_compute.
Qed.

Lemma mod10_digit u : (0 <= u mod 10 <= 9)%Z.
Proof. pose proof (Z.mod_pos_bound u 10). lia. Qed.

Lemma str_length_app s t : String.length (s +:+ t) = String.length s + String.length t.
Proof. induction s as [|c s IH]; [done|]. rewrite str_app_cons. simpl. by rewrite IH. Qed.

Lemma pad_length w u : String.length (pad w u) = w.
Proof.
  revert u. induction w as [|w IH]; intros u; cbn [pad]; [done|].
  rewrite str_length_app, IH. cbn [String.length]. lia.
Qed.

Lemma pad_digits w u : all_chars is_digit (pad w u) = true.
Proof.
  revert u. induction w as [|w IH]; intros u; cbn [pad]; [done|].
  rewrite all_chars_app, IH. cbn [all_chars andb].
  by destruct (digit_char_spec (u mod 10) (mod10_digit u)) as [-> _].
Qed.

Lemma pad_split j : forall k u, pad (k + j) u = pad k (u / pow10 j) +:+ pad j u.
Proof.
  induction j as [|j IH]; intros k u.
  - rewrite Nat.add_0_r. cbn [pad]. change (pow10 0) with 1%Z.
    by rewrite Z.div_1_r, str_app_nil_r.
  - replace (k + S j) with (S (k + j)) by lia. cbn [pad]. rewrite IH, str_app_assoc.
    rewrite pow10_S, <-Z.div_div by (pose proof (pow10_pos j); lia). done.
Qed.

Lemma take_str_app s t : take_str (String.length s) (s +:+ t) = s.
Proof.
  induction s as [|c s IH]; [by destruct t|].
  cbn [String.length]. rewrite str_app_cons. cbn [take_str]. by rewrite IH.
Qed.

Lemma drop_str_app s t : drop_str (String.length s) (s +:+ t) = t.
Proof.
  induction s as [|c s IH]; [by destruct t|].
  cbn [String.length]. rewrite str_app_cons. cbn [drop_str]. by rewrite IH.
Qed.

Lemma take_str_all s k : String.length s <= k -> take_str k s = s.
Proof.
  revert k. induction s as [|c s IH]; intros k Hk; [by destruct k|].
  destruct k as [|k]; cbn [String.length take_str] in *; [lia|]. rewrite IH; [done|lia].
Qed.

Lemma atoi_from_pad w : forall u acc rest,
  atoi_from acc (pad w u +:+ rest) = atoi_from (acc * pow10 w + u mod pow10 w)%Z rest.
Proof.
  induction w as [|w IH]; intros u acc rest.
  - cbn [pad]. rewrite str_app_nil_l. change (pow10 0) with 1%Z.
    rewrite Z.mod_1_r. f_equal. lia.
  - cbn [pad]. rewrite str_app_assoc, IH, str_app_cons, str_app_nil_l. cbn [atoi_from].
    destruct (digit_char_spec (u mod 10) (mod10_digit u)) as (-> & -> & _).
    f_equal. rewrite pow10_S.
    rewrite (Z.rem_mul_r u 10 (pow10 w)) by (pose proof (pow10_pos w); lia). lia.
Qed.

Lemma atoi_pad w u :
  (0 < w)%nat -> (0 <= u < pow10 w)%Z -> atoi (pad w u) = Some u.
Proof.
  intros Hw Hu. unfold atoi.
  destruct (pad w u) as [|c s] eqn:Hp.
  { pose proof (pad_length w u) as Hl. rewrite Hp in Hl. simpl in Hl. lia. }
  rewrite <-Hp, <-(str_app_nil_r (pad w u)), atoi_from_pad. cbn [atoi_from].
  rewrite Z.mod_small by done. done.
Qed.

Lemma num_digits_le fuel : forall u k,
  (0 < k)%nat -> (0 <= u < pow10 k)%Z -> num_digits fuel u <= k.
Proof.
  induction fuel as [|fuel IH]; intros u k Hk Hu; cbn [num_digits]; [lia|].
  destruct (Z.ltb_spec u 10); [lia|].
  destruct k as [|[|k]]; [lia| |].
  - change (pow10 1) with 10%Z in Hu. lia.
  - apply le_n_S, IH; [lia|]. rewrite pow10_S in Hu.
    split; [apply Z.div_pos; lia|]. apply Z.div_lt_upper_bound; lia.
Qed.

Lemma appendInt_pad x w :
  (0 < w)%nat -> (0 <= x < pow10 w)%Z -> appendInt x w = pad w x.
Proof.
  intros Hw Hx. unfold appendInt. rewrite Z.abs_eq by lia.
  destruct (Z.ltb_spec x 0); [lia|]. rewrite str_app_nil_l.
  by rewrite Nat.max_l by by apply num_digits_le.
Qed.

Lemma getnum_pad n fixed rest :
  (0 <= n < 100)%Z -> getnum (appendInt n 2 +:+ rest) fixed = Some (n, rest).
Proof.
  intros Hn. rewrite appendInt_pad by (change (pow10 2) with 100%Z; lia).
  change (pad 2 n +:+ rest)
    with (String (digit_char (n / 10 mod 10)) (String (digit_char (n mod 10)) rest)).
  cbn [getnum].
  destruct (digit_char_spec (n / 10 mod 10) (mod10_digit _)) as (-> & -> & _).
  destruct (digit_char_spec (n mod 10) (mod10_digit _)) as (-> & -> & _).
  do 2 f_equal. rewrite (Z.mod_small (n / 10)); [|split; [apply Z.div_pos; lia|apply Z.div_lt_upper_bound; lia]].
  pose proof (Z.div_mod n 10). lia.
Qed.

Lemma getyear_pad y rest :
  (0 <= y <= 9999)%Z -> getyear (appendInt y 4 +:+ rest) = Some (y, rest).
Proof.
  intros Hy. rewrite appendInt_pad by (change (pow10 4) with 10000%Z; lia).
  unfold getyear. rewrite str_length_app, pad_length.
  replace (4 + String.length rest <? 4)%nat with false
    by (symmetry; apply Nat.ltb_ge; lia).
  assert (is_digit (char_at (pad 4 y +:+ rest) 0) = true) as ->.
  { pose proof (pad_digits 4 y) as Hd. pose proof (pad_length 4 y) as Hl.
    destruct (pad 4 y) as [|c s]; [done|]. cbn [all_chars] in Hd.
    rewrite str_app_cons. unfold char_at. cbn [String.get]. by apply andb_true_iff in Hd as [-> _]. }
  cbn [negb orb].
  pose proof (take_str_app (pad 4 y) rest) as Htake.
  pose proof (drop_str_app (pad 4 y) rest) as Hdrop.
  rewrite pad_length in Htake, Hdrop. rewrite Htake, Hdrop.
  rewrite atoi_pad by (change (pow10 4) with 10000%Z; lia). done.
Qed.

Lemma get_app_length s c t : String.get (String.length s) (s +:+ String c t) = Some c.
Proof.
  induction s as [|c' s IH]; [done|]. rewrite str_app_cons.
  cbn [String.length String.get]. exact IH.
Qed.

Lemma char_at_pad k j u :
  char_at (pad (k + S j) u) k = digit_char ((u / pow10 j) mod 10).
Proof.
  rewrite pad_split. change (S j) with (1 + j). rewrite (pad_split j 1 u).
  change (pad 1 (u / pow10 j)) with (String (digit_char (u / pow10 j mod 10)) "").
  rewrite str_app_cons, str_app_nil_l. unfold char_at.
  pose proof (get_app_length (pad k (u / pow10 (1 + j)))
                (digit_char (u / pow10 j mod 10)) (pad j u)) as Hg.
  rewrite pad_length in Hg. by rewrite Hg.
Qed.

Lemma trim_zeros_spec ns k :
  k <= 9 -> (ns mod pow10 (9 - k) = 0)%Z ->
  trim_zeros k (pad 9 ns) <= k /\ (ns mod pow10 (9 - trim_zeros k (pad 9 ns)) = 0)%Z.
Proof.
  induction k as [|k IH]; intros Hk Hmod; cbn [trim_zeros]; [done|].
  pose proof (char_at_pad k (8 - k) ns) as Hc.
  replace (k + S (8 - k)) with 9 in Hc by lia. rewrite Hc.
  destruct (digit_char_spec ((ns / pow10 (8 - k)) mod 10) (mod10_digit _)) as (_ & _ & Hz).
  destruct (Ascii.eqb _ "0") eqn:He.
  - destruct IH as [Hle Hm]; [lia| |split; [lia|done]].
    replace (9 - k) with (S (8 - k)) by lia. rewrite pow10_S, Z.mul_comm.
    rewrite Z.rem_mul_r by (pose proof (pow10_pos (8 - k)); lia).
    replace (9 - S k) with (8 - k) in Hmod by lia. rewrite Hmod.
    destruct Hz as [Hz _]. rewrite Hz by done. lia.
  - split; [lia|]. done.
Qed.

Lemma span_digits_all s : all_chars is_digit s = true -> span_digits s = (s, "").
Proof.
  induction s as [|c s IH]; cbn [all_chars span_digits]; [done|].
  intros [-> Hs]%andb_true_iff. by rewrite IH.
Qed.

Lemma getfrac_formatNano ns :
  (0 <= ns < 1000000000)%Z -> (ns mod 1000 = 0)%Z ->
  getfrac (formatNano ns) = Some (ns, "").
Proof.
  intros Hns Hmod. unfold formatNano.
  destruct (trim_zeros_spec ns 6) as [Hle Hm]; [lia|done|].
  destruct (trim_zeros 6 (pad 9 ns)) as [|n] eqn:Hn; cbn [Nat.eqb].
  - cbn [getfrac]. f_equal. f_equal. change (pow10 (9 - 0)) with 1000000000%Z in Hm.
    rewrite Z.mod_small in Hm by done. done.
  - set (x := (ns / pow10 (9 - S n))%Z).
    assert (take_str (S n) (pad 9 ns) = pad (S n) x) as ->.
    { pose proof (pad_split (9 - S n) (S n) ns) as Hsp.
      replace (S n + (9 - S n)) with 9 in Hsp by lia. rewrite Hsp. fold x.
      pose proof (take_str_app (pad (S n) x) (pad (9 - S n) ns)) as Htake.
      by rewrite pad_length in Htake. }
    assert (0 <= x < pow10 (S n))%Z as Hx.
    { pose proof (pow10_pos (9 - S n)). pose proof (pow10_pos (S n)). unfold x. split.
      - apply Z.div_pos; lia.
      - apply Z.div_lt_upper_bound; [lia|].
        rewrite Z.mul_comm, <-pow10_add. replace (S n + (9 - S n)) with 9 by lia.
        change (pow10 9) with 1000000000%Z. lia. }
    pose proof (pad_digits (S n) x) as Hd. pose proof (pad_length (S n) x) as Hl.
    pose proof (atoi_pad (S n) x ltac:(lia) Hx) as Ha.
    destruct (pad (S n) x) as [|c s] eqn:Hp; [done|].
    change ("." +:+ String c s) with (String "." (String c s)). unfold getfrac.
    assert (is_digit c = true) as Hc
      by (cbn [all_chars] in Hd; by apply andb_true_iff in Hd as [? _]).
    rewrite Hc. rewrite Ascii.eqb_refl. cbn [orb andb].
    rewrite span_digits_all by done.
    rewrite take_str_all by lia. rewrite Ha. cbn [mbind option_bind]. rewrite Hl.
    do 2 f_equal. fold (pow10 (9 - S n)). unfold x.
    pose proof (pow10_pos (9 - S n)).
    rewrite Z.mul_comm. symmetry. apply Z_div_exact_full_2; [lia|done].
Qed.

Lemma skip_char c rest : skip (String c rest) c = Some rest.
Proof. cbn [skip]. by rewrite Ascii.eqb_refl. Qed.

Lemma layout_exact_bounds t :
  layout_exact t = true ->
  (0 <= Year t <= 9999 /\ 1 <= Month t <= 12 /\ 1 <= Day t <= daysIn (Month t) (Year t)
   /\ 0 <= Hour t < 24 /\ 0 <= Minute t < 60 /\ 0 <= Second t < 60
   /\ 0 <= Nanosecond t < 1000000000 /\ Nanosecond t mod 1000 = 0 /\ ZoneOffset t = 0)%Z.
Proof.
  unfold layout_exact, valid_time. rewrite !andb_true_iff.
  rewrite !Z.leb_le, !Z.ltb_lt, !Z.eqb_eq. lia.
Qed.

Lemma daysIn_le m y : (daysIn m y <= 31)%Z.
Proof. unfold daysIn. repeat case_match; lia. Qed.

(** [time.Parse] reads back what [Format] writes for a time that the layout
    writes in full. *)
Lemma Parse_Format t : layout_exact t = true -> Parse (Format t) = Some t.
Proof.
  intros (Hy & Hm & Hd & Hh & Hmi & Hs & Hn & Hus & Hz)%layout_exact_bounds.
  pose proof (daysIn_le (Month t) (Year t)).
  unfold Format, Parse.
  rewrite getyear_pad by done. cbn [mbind option_bind].
  change ("-" +:+ ?x) with (String "-" x). rewrite skip_char. cbn [mbind option_bind].
  rewrite getnum_pad by lia. cbn [mbind option_bind].
  replace (negb ((1 <=? Month t)%Z && (Month t <=? 12)%Z)) with false
    by (symmetry; apply negb_false_iff, andb_true_iff; split; lia).
  change ("-" +:+ ?x) with (String "-" x). rewrite skip_char. cbn [mbind option_bind].
  rewrite getnum_pad by lia. cbn [mbind option_bind].
  change ("T" +:+ ?x) with (String "T" x). rewrite skip_char. cbn [mbind option_bind].
  rewrite getnum_pad by lia. cbn [mbind option_bind].
  replace (negb (Hour t <? 24)%Z) with false by (symmetry; apply negb_false_iff; lia).
  change (":" +:+ ?x) with (String ":" x). rewrite skip_char. cbn [mbind option_bind].
  rewrite getnum_pad by lia. cbn [mbind option_bind].
  replace (negb (Minute t <? 60)%Z) with false by (symmetry; apply negb_false_iff; lia).
  change (":" +:+ ?x) with (String ":" x). rewrite skip_char. cbn [mbind option_bind].
  rewrite getnum_pad by lia. cbn [mbind option_bind].
  replace (negb (Second t <? 60)%Z) with false by (symmetry; apply negb_false_iff; lia).
  rewrite getfrac_formatNano by done. cbn [mbind option_bind].
  cbn [String.eqb negb].
  replace (negb ((1 <=? Day t)%Z && (Day t <=? daysIn (Month t) (Year t))%Z)) with false
    by (symmetry; apply negb_false_iff, andb_true_iff; split; lia).
  destruct t as [y mo d h mi s n z].
  cbn [Year Month Day Hour Minute Second Nanosecond ZoneOffset] in *. by subst.
Qed.

(** ** The string of a time is ASCII *)

Lemma all_chars_take p n : forall s,
  all_chars p s = true -> all_chars p (take_str n s) = true.
Proof.
  induction n as [|n IH]; intros [|c s]; cbn [take_str all_chars]; try done.
  intros [Hc Hs]%andb_true_iff. by rewrite Hc, IH.
Qed.

Lemma pad_ascii w u : all_chars (in_range 0 127) (pad w u) = true.
Proof.
  generalize (pad_digits w u). apply all_chars_impl, is_digit_ascii.
Qed.

Lemma appendInt_ascii x w : all_chars (in_range 0 127) (appendInt x w) = true.
Proof.
  unfold appendInt. rewrite all_chars_app, pad_ascii. by destruct (x <? 0)%Z.
Qed.

Lemma formatNano_ascii ns : all_chars (in_range 0 127) (formatNano ns) = true.
Proof.
  unfold formatNano. case_match; [done|].
  change ("." +:+ ?s) with (String "." s). cbn [all_chars].
  rewrite all_chars_take; [done|apply pad_ascii].
Qed.

Lemma Format_ascii t : all_chars (in_range 0 127) (Format t) = true.
Proof.
  unfold Format. rewrite !all_chars_app, !appendInt_ascii, formatNano_ascii. reflexivity.
Qed.

Lemma appendString_Format t : appendString (Format t) = Format t.
Proof. apply appendString_ascii, Format_ascii. Qed.

(** * Encoding, then decoding *)

#[local] Set Warnings "-clear-no-such-hyp,-unused-intro-pattern".

Lemma strings_valid_spec a :
  strings_valid a = true ->
  appendString (ID a) = ID a /\ appendString (Actor a) = Actor a
  /\ appendString (Verb a) = Verb a /\ appendString (Object a) = Object a
  /\ appendString (Target a) = Target a /\ appendString (Origin a) = Origin a
  /\ appendString (ForeignID a) = ForeignID a.
Proof.
  unfold strings_valid. rewrite !andb_true_iff, !valid_utf8_spec. tauto.
Qed.

(** What survives of an Activity whose strings, metadata, data and feeds
    survive: everything, the timestamp being read from the string that is
    written for it, or for the current time when it is nil. *)
Lemma decode_encoded_fields
    (order : gmap string payload -> list (string * payload))
    (now : Time) (a : Activity) :
  iteration_order order ->
  strings_valid a = true ->
  (forall k v, default ∅ (MetaData a) !! k = Some v ->
     recognized (ToLower k) = false /\ valid_utf8 k = true /\ v <> Nil /\ survives v) ->
  (forall raw, Data a = Some raw -> exists j, raw = Valid j /\ j <> JNull) ->
  Forall (fun f => feed_ok f = true /\ valid_utf8 (token f) = true) (To a) ->
  decode_encoded order now a
  = Some (Done (set_TimeStamp (Parse (Format (default now (TimeStamp a))))
                  (set_MetaData (Some (default ∅ (MetaData a))) a), None)).
Proof.
  intros Ho Hstr Hmd Hdata Hto.
  assert (Data a <> Some Invalid) as Hraw.
  { intros Hd. by destruct (Hdata _ Hd) as (j & ? & _). }
  unfold decode_encoded. rewrite (MarshalJSON_encoded now a); [|..|done].
  2:{ intros k [v Hv]. by apply (Hmd k v). }
  2:{ intros k v Hv. apply Hmd in Hv as (_ & _ & _ & Hs).
      destruct (survives_Marshal v Hs) as (j & -> & _). by eexists. }
  simpl. f_equal.
  destruct (UnmarshalJSON_inv order zero (Valid (JObject (encoded now a))) Ho)
    as [(e & [=] & _)|(m & entries & a1 & md1 & [= <-] & Hp & Hr & ->)].
  pose proof (UnmarshalJSON_range_metadata_map _ _ _ _ _ Hp Hr) as ->.
  rewrite (encoded_filter_metadata now a Hmd).
  do 2 f_equal.
  destruct (fields_at now a) as (Hactor & Hverb & Hobject & Horigin & Hid & Htarget
    & Hdata' & Hforeign & Htime & Hto').
  destruct (strings_valid_spec a Hstr) as (Hsid & Hsactor & Hsverb & Hsobject & Hstarget
    & Hsorigin & Hsforeign).
  apply Activity_eq; simpl; try done.
  - apply (roundtrip_field now a Hmd entries a1 _ Hp Hr ID payload_String "id" _ body_ID);
      [done..|]. rewrite Hid. destruct (String.eqb_spec (ID a) ""); [done|].
    simpl. by rewrite Hsid.
  - apply (roundtrip_field now a Hmd entries a1 _ Hp Hr Actor payload_String "actor" _
             body_Actor); [done..|]. rewrite Hactor. simpl. by rewrite Hsactor.
  - apply (roundtrip_field now a Hmd entries a1 _ Hp Hr Verb payload_String "verb" _
             body_Verb); [done..|]. rewrite Hverb. simpl. by rewrite Hsverb.
  - apply (roundtrip_field now a Hmd entries a1 _ Hp Hr Object payload_String "object" _
             body_Object); [done..|]. rewrite Hobject. simpl. by rewrite Hsobject.
  - apply (roundtrip_field now a Hmd entries a1 _ Hp Hr Target payload_String "target" _
             body_Target); [done..|]. rewrite Htarget.
    destruct (String.eqb_spec (Target a) ""); [done|]. simpl. by rewrite Hstarget.
  - apply (roundtrip_field now a Hmd entries a1 _ Hp Hr Origin payload_String "origin" _
             body_Origin); [done..|]. rewrite Horigin. simpl. by rewrite Hsorigin.
  - apply (roundtrip_field now a Hmd entries a1 _ Hp Hr TimeStamp payload_TimeStamp "time" _
             body_TimeStamp); [done..|]. rewrite Htime. simpl.
    rewrite appendString_Format. split; [done|]. reflexivity.
  - apply (roundtrip_field now a Hmd entries a1 _ Hp Hr ForeignID payload_String
             "foreign_id" _ body_ForeignID); [done..|]. rewrite Hforeign.
    destruct (String.eqb_spec (ForeignID a) ""); [done|]. simpl. by rewrite Hsforeign.
  - apply (roundtrip_field now a Hmd entries a1 _ Hp Hr Data (fun j => Some (Valid j))
             "data" _ body_Data); [done..|]. rewrite Hdata'.
    destruct (Data a) as [raw|]; [|done].
    destruct (Hdata raw eq_refl) as (j & -> & Hj). simpl. split; [|done]. by destruct j.
  - apply (roundtrip_field now a Hmd entries a1 _ Hp Hr To feeds_of "to" _ body_To);
      [done..|]. rewrite Hto'. destruct (To a) as [|f fs] eqn:HTo; [done|].
    cbn [mbind option_bind]. rewrite Marshal_to_strings by done.
    split; [done|]. apply feeds_of_to_string.
    eapply Forall_impl; [exact Hto|]. by intros ? [? _].
Qed.

Lemma set_TimeStamp_same a t : TimeStamp a = Some t -> set_TimeStamp (Some t) a = a.
Proof. destruct a. simpl. by intros ->. Qed.

(** * Properties of the specification *)

(** ** Feed reference strings *)

Example matchFeed_user_1 :
  matchFeed "user:1" = Done (Some (mkGeneralFeed "user" "1" "")).
Proof. reflexivity. Qed.

Example matchFeedWithToken_user_2 :
  matchFeedWithToken "user:2 tok123" = Done (Some (mkGeneralFeed "user" "2" "tok123")).
Proof. reflexivity. Qed.

Lemma after_app a s sep :
  all_chars (is_not sep) a = true -> after sep (a +:+ String sep s) = s.
Proof.
  induction a as [|c a IH]; simpl all_chars.
  - intros _. rewrite str_app_nil_l. simpl. by rewrite Ascii.eqb_refl.
  - unfold is_not at 1. intros [Hc Ha]%andb_true_iff. rewrite str_app_cons. simpl after.
    apply negb_true_iff in Hc. rewrite Hc. by apply IH.
Qed.

(** C10: [matchFeedWithToken] returns for every string, without a panic; and
    whenever its pattern matches, splitting the string on [":"] gives at least
    two segments and splitting the segment of index 1 on [" "] gives at least
    two pieces, so [firstSplit[1]], [secondSplit[0]] and [secondSplit[1]] are
    in bounds. *)
Theorem matchFeedWithToken_in_bounds (to : string) :
  (exists r, matchFeedWithToken to = Done r) /\
  (MatchString feed_token_pattern to = true ->
   exists seg, Split to ":" !! 1%nat = Some seg
     /\ 2 <= List.length (Split to ":") /\ 2 <= List.length (Split seg " ")).
Proof.
  split; [apply matchFeedWithToken_total|].
  intros (slug & uid & rest & -> & Hs & Hu & Hr)%feed_token_pattern_spec.
  change (":" +:+ uid +:+ " " +:+ rest) with (String ":" (uid +:+ String " " rest)).
  rewrite Split_app by by apply is_words_no_colon.
  destruct (Split_head (uid +:+ String " " rest) ":") as [pieces ->].
  eexists. split; [reflexivity|]. split; [simpl; lia|].
  rewrite before_app by by apply is_words_no_colon. simpl before.
  rewrite Split_app by by apply is_words_no_space.
  destruct (Split_head (before ":" rest) " ") as [pieces' ->]. simpl. lia.
Qed.

(** C4, as stated, fails: no string is matched by both patterns, so no string
    makes [To] append two references. *)
Lemma both_patterns_never_match :
  (exists to f1 f2,
     matchFeed to = Done (Some f1) /\ matchFeedWithToken to = Done (Some f2))
  <-> False.
Proof.
  split; [|done]. intros (to & f1 & f2 & H1 & H2).
  destruct (MatchString feed_pattern to) eqn:Hm1;
    [|by rewrite matchFeed_None in H1].
  destruct (MatchString feed_token_pattern to) eqn:Hm2;
    [|by rewrite matchFeedWithToken_None in H2].
  eapply patterns_exclusive; eauto.
Qed.

(** C4, amended: in the flat list both patterns are tried on each string, and
    at most one of them matches; a string appends at most one reference to
    the decoded list. *)
Theorem To_loop_at_most_one (to : string) :
  (matchFeed to = Done None \/ matchFeedWithToken to = Done None) /\
  (forall feed, exists new,
     To_loop feed [to] = Done (feed ++ new)%list /\ List.length new <= 1).
Proof.
  assert (matchFeed to = Done None \/ matchFeedWithToken to = Done None) as Hex.
  { destruct (MatchString feed_pattern to) eqn:Hm1;
      [|left; by apply matchFeed_None].
    destruct (MatchString feed_token_pattern to) eqn:Hm2;
      [|right; by apply matchFeedWithToken_None].
    destruct (patterns_exclusive to Hm1 Hm2). }
  split; [done|]. intros feed. simpl.
  destruct (matchFeed_total to) as [m1 H1], (matchFeedWithToken_total to) as [m2 H2].
  rewrite H1, H2. simpl.
  destruct m1 as [f1|], m2 as [f2|].
  - destruct Hex as [Hex|Hex]; congruence.
  - exists [f1]. split; [done|simpl; lia].
  - exists [f2]. split; [done|simpl; lia].
  - exists []. split; [by rewrite app_nil_r|simpl; lia].
Qed.

(** C5, as stated, fails: the token stops at the second space, or at the
    second colon, of the string; and the remainder after the space may be
    empty. *)
Lemma matchFeedWithToken_truncates :
  matchFeedWithToken "user:1 a b" = Done (Some (mkGeneralFeed "user" "1" "a"))
  /\ matchFeedWithToken "user:1 a:b" = Done (Some (mkGeneralFeed "user" "1" "a"))
  /\ matchFeedWithToken "user:1 " = Done (Some (mkGeneralFeed "user" "1" "")).
Proof. repeat split; reflexivity. Qed.

(** C5, amended: a string gives a reference with token exactly when it is
    [word:word], one space, and a remainder without line feed, which may be
    empty; the slug is the part before the colon, the user the part of the
    rest before the first space, and the token is the whole remainder when the
    remainder has no space and no colon. *)
Theorem matchFeedWithToken_spec (to : string) :
  ((exists feed, matchFeedWithToken to = Done (Some feed)) <->
   (exists slug uid rest, to = slug +:+ ":" +:+ uid +:+ " " +:+ rest
      /\ is_words slug = true /\ is_words uid = true /\ all_chars is_dot rest = true))
  /\ (forall feed, matchFeedWithToken to = Done (Some feed) ->
        FeedSlug feed = before ":" to
        /\ UserID feed = before " " (after ":" to)
        /\ (all_chars (is_not " ") (after " " (after ":" to)) = true ->
            all_chars (is_not ":") (after " " (after ":" to)) = true ->
            token feed = after " " (after ":" to))).
Proof.
  split.
  - split.
    + intros [feed H].
      destruct (MatchString feed_token_pattern to) eqn:Hm;
        [by apply feed_token_pattern_spec|by rewrite matchFeedWithToken_None in H].
    + intros (slug & uid & rest & -> & Hs & Hu & Hr).
      rewrite matchFeedWithToken_words by done. eauto.
  - intros feed H.
    destruct (MatchString feed_token_pattern to) eqn:Hm;
      [|by rewrite matchFeedWithToken_None in H].
    apply feed_token_pattern_spec in Hm as (slug & uid & rest & -> & Hs & Hu & Hr).
    rewrite matchFeedWithToken_words in H by done. injection H as <-. simpl.
    change (":" +:+ uid +:+ " " +:+ rest) with (String ":" (uid +:+ String " " rest)).
    rewrite after_app by by apply is_words_no_colon.
    rewrite after_app by by apply is_words_no_space.
    rewrite before_app by by apply is_words_no_colon. simpl before.
    rewrite str_app_nil_r.
    rewrite before_app by by apply is_words_no_space. simpl before.
    rewrite str_app_nil_r. split; [done|]. split; [done|].
    intros Hsp Hco. by rewrite (before_none rest ":"), (before_none rest " ").
Qed.

(** ** The two shapes of [to] *)

Example decode_flat_to :
  UnmarshalJSON map_to_list zero
    (Valid (JObject {["to" := JArray [JString "user:1"; JString "user:2 tok123"]]}))
  = Done (set_To [mkGeneralFeed "user" "1" ""; mkGeneralFeed "user" "2" "tok123"]
            (set_MetaData (Some ∅) zero), None).
Proof. reflexivity. Qed.

Example decode_feed_and_token_pairs :
  payload_To (JArray [JArray [JString "user:1"; JString "tok"]; JArray [JString "user:3"]])
  = Done [mkGeneralFeed "user" "1" "tok"; mkGeneralFeed "user" "3" ""].
Proof. reflexivity. Qed.

(** C6, as stated, fails: decoding [{"to": [["user","1"], ["user"]]}] gives an
    Activity without any feed. *)
Lemma decode_to_user_1_user :
  UnmarshalJSON map_to_list zero (Valid (JObject {["to" := to_user_1_user]}))
  = Done (set_MetaData (Some ∅) zero, None)
  /\ To (set_MetaData (Some ∅) zero) = [].
Proof. split; reflexivity. Qed.

(** C6, amended: decoding [{"to": [["user","1"], ["user"]]}] yields no
    reference.  The inner list of two elements is joined by a space, as
    ["user 1"], which neither pattern matches, and ["user"] matches neither;
    the two strings follow the two empty strings that the failed decoding as
    a flat list left behind. *)
Theorem inner_lists_joined_by_space :
  payload_to1D to_user_1_user = [""; ""; "user 1"; "user"]
  /\ payload_To to_user_1_user = Done []
  /\ (forall order, iteration_order order ->
        UnmarshalJSON order zero (Valid (JObject {["to" := to_user_1_user]}))
        = Done (set_MetaData (Some ∅) zero, None)).
Proof.
  split; [reflexivity|]. split; [reflexivity|].
  intros order Ho. unfold UnmarshalJSON. simpl.
  rewrite (iteration_order_singleton order) by done. reflexivity.
Qed.

(** ** Errors of the decoder *)

(** C2, as stated, fails: the top-level text [null] is not a JSON object, and
    decoding it returns no error. *)
Lemma decode_null_succeeds :
  is_object (Valid JNull) = false
  /\ UnmarshalJSON map_to_list zero (Valid JNull)
     = Done (set_MetaData (Some ∅) zero, None).
Proof. split; reflexivity. Qed.

(** C2, amended: decoding returns, without a panic; it returns an error
    exactly when the input is not a JSON text or its top-level value is
    neither an object nor [null], and then the receiver is untouched.  For
    every object (and for [null]) it succeeds, whatever the members hold. *)
Theorem UnmarshalJSON_error_iff
    (order : gmap string payload -> list (string * payload)) (a : Activity) (b : wire) :
  iteration_order order ->
  exists a' err, UnmarshalJSON order a b = Done (a', err)
    /\ (is_Some err <-> object_or_null b = false)
    /\ (is_Some err -> a' = a).
Proof.
  intros [(e & Hb & ->)|(m & entries & a1 & md & Hb & _ & _ & ->)]%(UnmarshalJSON_inv _ a b).
  - exists a, (Some e). split; [done|]. split; [|done].
    rewrite <-Unmarshal_rawPayload_error. split; eauto.
  - eexists _, None. split; [done|]. split; [|by intros [? [=]]].
    rewrite <-Unmarshal_rawPayload_error. split; [by intros [? [=]]|].
    intros [e He]. congruence.
Qed.

Lemma UnmarshalJSON_error_iff_witness :
  iteration_order map_to_list
  /\ exists a' err,
       UnmarshalJSON map_to_list zero
         (Valid (JObject {["time" := JNumber "5"; "to" := JBool true]}))
       = Done (a', err)
       /\ (is_Some err
           <-> object_or_null
                 (Valid (JObject {["time" := JNumber "5"; "to" := JBool true]})) = false)
       /\ (is_Some err -> a' = zero).
Proof.
  assert (iteration_order map_to_list) as Ho by (intros m; reflexivity).
  split; [exact Ho|].
  exact (UnmarshalJSON_error_iff map_to_list zero
           (Valid (JObject {["time" := JNumber "5"; "to" := JBool true]})) Ho).
Defined.

(** ** Metadata *)

Example ToLower_ACTOR : ToLower "ACTOR" = "actor".
Proof. reflexivity. Qed.

(** The bytes 196 176 are U+0130, which [unicode.ToLower] sends to [i]. *)
Example ToLower_dotted_I : ToLower (String "196" (String "176" "D")) = "id".
Proof. reflexivity. Qed.



Example ParseFloat_42 : ParseFloat "42" = Some forty_two.
Proof. reflexivity. Qed.

Example decode_ACTOR :
  UnmarshalJSON map_to_list zero
    (Valid (JObject {["ACTOR" := JString "A"; "Extra" := JNumber "42"]}))
  = Done (set_Actor "A" (set_MetaData (Some {["Extra" := Float64 forty_two]}) zero), None).
Proof. reflexivity. Qed.


(** C9: after a successful decode the metadata map is not nil: it is the map
    of the members of the input that are neither null nor recognized, each
    with its generic value, built afresh, whatever metadata the receiver had;
    for [{}], and for every object whose keys are all recognized, it is the
    empty map. *)
Theorem UnmarshalJSON_fresh_metadata
    (order : gmap string payload -> list (string * payload))
    (a : Activity) (b : wire) (a' : Activity) :
  iteration_order order ->
  UnmarshalJSON order a b = Done (a', None) ->
  exists m, Unmarshal_rawPayload b = inr m
    /\ MetaData a'
       = Some (Unmarshal_interface <$> filter (fun kv => to_metadata kv = true) m)
    /\ ((forall k v, m !! k = Some v -> recognized (ToLower k) = true) ->
        MetaData a' = Some ∅).
Proof.
  intros Ho Hdec.
  destruct (UnmarshalJSON_inv order a b Ho)
    as [(e & Hb & He)|(m & entries & a1 & md & Hb & Hp & Hr & Hd)];
    rewrite Hdec in *; [done|]. injection Hd as ->.
  exists m. split; [done|]. simpl.
  apply (UnmarshalJSON_range_metadata_map m) in Hr as ->; [|done].
  split; [done|]. intros Hrec. f_equal. apply map_empty. intros k.
  rewrite lookup_fmap.
  assert (filter (fun kv => to_metadata kv = true) m !! k = None) as ->; [|done].
  apply map_lookup_filter_None. right. intros v Hk. unfold to_metadata. simpl.
  rewrite (Hrec k v Hk). by rewrite andb_false_r.
Qed.

Lemma UnmarshalJSON_fresh_metadata_witness :
  iteration_order map_to_list
  /\ exists m,
       Unmarshal_rawPayload (Valid (JObject {["verb" := JString "post"]})) = inr m
       /\ MetaData (set_Verb "post" (set_MetaData (Some ∅) zero))
          = Some (Unmarshal_interface <$> filter (fun kv => to_metadata kv = true) m)
       /\ ((forall k v, m !! k = Some v -> recognized (ToLower k) = true) ->
           MetaData (set_Verb "post" (set_MetaData (Some ∅) zero)) = Some ∅).
Proof.
  assert (iteration_order map_to_list) as Ho by (intros m; reflexivity).
  split; [exact Ho|].
  apply (UnmarshalJSON_fresh_metadata map_to_list
           (set_MetaData (Some {["old" := Bool true]}) zero)
           (Valid (JObject {["verb" := JString "post"]})) _ Ho).
  reflexivity.
Defined.

(** ** Time *)

Example decode_not_a_date :
  UnmarshalJSON map_to_list zero (Valid (JObject {["time" := JString "not-a-date"]}))
  = Done (set_MetaData (Some ∅) zero, None).
Proof. reflexivity. Qed.

(** C8: when every value under a key that lower-cases to [time] is not a
    JSON string, or is a string that the layout does not parse, decoding the
    object succeeds and the timestamp is unset: it stays unset on a receiver
    that had none, and a value that is not [null] unsets it on any
    receiver. *)
Theorem unparseable_time_left_unset
    (order : gmap string payload -> list (string * payload))
    (a : Activity) (m : gmap string json) :
  iteration_order order ->
  (forall k v, m !! k = Some v -> ToLower k = "time" -> unparseable_time v) ->
  exists a', UnmarshalJSON order a (Valid (JObject m)) = Done (a', None)
    /\ (TimeStamp a = None -> TimeStamp a' = None)
    /\ ((exists k v, m !! k = Some v /\ ToLower k = "time" /\ v <> JNull) ->
        TimeStamp a' = None).
Proof.
  intros Ho Hbad.
  destruct (UnmarshalJSON_inv order a (Valid (JObject m)) Ho)
    as [(e & [=] & _)|(m' & entries & a1 & md & [= <-] & Hp & Hr & ->)].
  eexists. split; [done|].
  assert (forall kv, kv ∈ entries -> hits "time" kv = true -> payload_TimeStamp kv.2 = None)
    as Hall.
  { intros [k v] Hin [_ Hk%String.eqb_eq]%andb_true_iff.
    apply (elem_of_order m) in Hin; [|done].
    apply payload_TimeStamp_unparseable. by apply (Hbad k). }
  split.
  - intros Hnone.
    apply (range_field_inv TimeStamp payload_TimeStamp "time" body_TimeStamp None
             entries a ∅ a1 md Hr Hall). by left.
  - intros (k & v & Hk & Hlow & Hv).
    apply (range_field_inv TimeStamp payload_TimeStamp "time" body_TimeStamp None
             entries a ∅ a1 md Hr Hall). right.
    exists (k, v). split; [by apply (elem_of_order m)|].
    unfold hits. simpl. rewrite Hlow. by destruct v.
Qed.

Lemma unparseable_time_left_unset_witness :
  iteration_order map_to_list
  /\ (forall k v, ({["time" := JString "not-a-date"]} : gmap string json) !! k = Some v ->
        ToLower k = "time" -> unparseable_time v)
  /\ exists a',
       UnmarshalJSON map_to_list zero (Valid (JObject {["time" := JString "not-a-date"]}))
       = Done (a', None)
       /\ (TimeStamp zero = None -> TimeStamp a' = None)
       /\ ((exists k v,
              ({["time" := JString "not-a-date"]} : gmap string json) !! k = Some v
              /\ ToLower k = "time" /\ v <> JNull) ->
           TimeStamp a' = None).
Proof.
  assert (iteration_order map_to_list) as Ho by (intros m; reflexivity).
  assert (forall k v, ({["time" := JString "not-a-date"]} : gmap string json) !! k = Some v ->
            ToLower k = "time" -> unparseable_time v) as Hbad.
  { intros k v [_ <-]%lookup_singleton_Some _ s [= <-]. reflexivity. }
  split; [exact Ho|]. split; [exact Hbad|].
  exact (unparseable_time_left_unset map_to_list zero
           {["time" := JString "not-a-date"]} Ho Hbad).
Defined.

(** ** Optional members of the encoded object *)

(** C7, as stated, fails: an Activity whose [ID] is empty and whose metadata
    has the key [id] is encoded with the key [id], here with the value
    [null]. *)
Lemma MarshalJSON_id_from_metadata :
  ID (set_MetaData (Some {["id" := Nil]}) zero) = ""
  /\ MarshalJSON_payload a_time (set_MetaData (Some {["id" := Nil]}) zero) !! "id"
     = Some Nil
  /\ MarshalJSON a_time (set_MetaData (Some {["id" := Nil]}) zero)
     = Some (Valid (JObject (encoded a_time (set_MetaData (Some {["id" := Nil]}) zero))))
  /\ encoded a_time (set_MetaData (Some {["id" := Nil]}) zero) !! "id" = Some JNull.
Proof. repeat split; vm_compute; reflexivity. Qed.

Lemma payload_optional_keys now a :
  optional_key (MarshalJSON_payload now a) (default ∅ (MetaData a)) "id" (ID a)
  /\ optional_key (MarshalJSON_payload now a) (default ∅ (MetaData a)) "target" (Target a)
  /\ optional_key (MarshalJSON_payload now a) (default ∅ (MetaData a)) "foreign_id"
       (ForeignID a).
Proof.
  repeat split; apply optional_key_intro; intros v; rewrite fields_lookup; naive_solver.
Qed.

(** C7, amended: the encoded object has the key [id] if and only if the [ID]
    is not empty or the metadata has a key [id]; a non-empty [ID] is written
    as its string, and an empty [ID] writes nothing, leaving what the metadata
    has under [id]; likewise for [target] and [foreign_id].  This holds of
    the map handed to [json.Marshal] and of the object in the bytes it
    returns. *)
Theorem MarshalJSON_optional_keys (now : Time) (a : Activity) :
  optional_key (MarshalJSON_payload now a) (default ∅ (MetaData a)) "id" (ID a)
  /\ optional_key (MarshalJSON_payload now a) (default ∅ (MetaData a)) "target" (Target a)
  /\ optional_key (MarshalJSON_payload now a) (default ∅ (MetaData a)) "foreign_id"
       (ForeignID a)
  /\ (forall m, MarshalJSON now a = Some (Valid (JObject m)) ->
        optional_member m (default ∅ (MetaData a)) "id" (ID a)
        /\ optional_member m (default ∅ (MetaData a)) "target" (Target a)
        /\ optional_member m (default ∅ (MetaData a)) "foreign_id" (ForeignID a)).
Proof.
  destruct (payload_optional_keys now a) as (Hid & Htarget & Hforeign).
  split; [exact Hid|]. split; [exact Htarget|]. split; [exact Hforeign|].
  intros m Hm. split; [|split]; by apply (optional_member_intro now a).
Qed.

(** ** Round trip *)

Example Format_a_time : Format a_time = "2020-01-02T03:04:05.123456".
Proof. reflexivity. Qed.

Example Format_a_time_500ns : Format a_time_500ns = "2020-01-02T03:04:05".
Proof. reflexivity. Qed.


(** Other Activities that do not come back: a metadata key that lower-cases
    to a recognized name is read as the field, a metadata value nil is
    skipped, and a feed whose slug is not a word is dropped. *)
Example decode_encode_metadata_key :
  decode_encoded map_to_list a_time
    (set_TimeStamp (Some a_time) (set_MetaData (Some {["ID" := Str "x"]}) zero))
  = Some (Done (set_ID "x" (set_TimeStamp (Some a_time) (set_MetaData (Some ∅) zero)),
                None)).
Proof. reflexivity. Qed.

Example decode_encode_null_metadata :
  decode_encoded map_to_list a_time
    (set_TimeStamp (Some a_time) (set_MetaData (Some {["extra" := Nil]}) zero))
  = Some (Done (set_TimeStamp (Some a_time) (set_MetaData (Some ∅) zero), None)).
Proof. reflexivity. Qed.

Example decode_encode_slug :
  decode_encoded map_to_list a_time
    (set_To [mkGeneralFeed "flat-feed" "1" ""]
       (set_TimeStamp (Some a_time) (set_MetaData (Some ∅) zero)))
  = Some (Done (set_TimeStamp (Some a_time) (set_MetaData (Some ∅) zero), None)).
Proof. reflexivity. Qed.

(** Nor does a metadata value that is not of the types the decoder makes:
    the [int64] 9007199254740993 is written with all its digits and read as
    the [float64] 9007199254740992, which is [2^52 * 2^1]. *)
Example decode_encode_int64 :
  decode_encoded map_to_list a_time
    (set_TimeStamp (Some a_time)
       (set_MetaData (Some {["n" := Opaque (Some (JNumber "9007199254740993"))]}) zero))
  = Some (Done (set_TimeStamp (Some a_time)
                  (set_MetaData
                     (Some {["n" := Float64 (S754_finite false 4503599627370496 1)]})
                     zero), None)).
Proof. reflexivity. Qed.

(** A string that is not valid UTF-8 comes back with U+FFFD for each byte
    that is not: here the byte 255 of the [Actor]. *)
Example decode_encode_invalid_utf8 :
  decode_encoded map_to_list a_time
    (set_Actor (String "a" (String "255" "b"))
       (set_TimeStamp (Some a_time) (set_MetaData (Some ∅) zero)))
  = Some (Done (set_Actor ("a" +:+ replacement +:+ "b")
                  (set_TimeStamp (Some a_time) (set_MetaData (Some ∅) zero)), None)).
Proof. reflexivity. Qed.

(** And an Activity with an infinite number in its metadata, or with a [Data]
    that is not a JSON text, has no bytes: [json.Marshal] returns an error. *)
Example MarshalJSON_infinity :
  MarshalJSON a_time (set_MetaData (Some {["x" := Float64 (S754_infinity false)]}) zero)
  = None.
Proof. reflexivity. Qed.

Example MarshalJSON_invalid_data :
  MarshalJSON a_time (set_Data (Some Invalid) zero) = None.
Proof. reflexivity. Qed.



(** * Further properties *)

#[local] Set Warnings "-clear-no-such-hyp,-unused-intro-pattern".

(** ** Further properties of the encoder *)

Lemma payload_lookup_field now a k v :
  fields now a !! k = Some v -> MarshalJSON_payload now a !! k = Some v.
Proof. intros H. rewrite MarshalJSON_payload_union. by apply lookup_union_Some_l. Qed.

Lemma payload_lookup_not_field now a k :
  fields now a !! k = None ->
  MarshalJSON_payload now a !! k = default ∅ (MetaData a) !! k.
Proof. intros H. rewrite MarshalJSON_payload_union. by apply lookup_union_r. Qed.

(** X1: the map that [MarshalJSON] hands to [json.Marshal] always has the
    keys [actor], [verb], [object], [origin] and [time], with the strings of
    the fields (the time of the timestamp, or of the current time when the
    timestamp is nil), whatever the metadata holds under these keys. *)
Theorem MarshalJSON_required_keys (now : Time) (a : Activity) :
  MarshalJSON_payload now a !! "actor" = Some (Str (Actor a))
  /\ MarshalJSON_payload now a !! "verb" = Some (Str (Verb a))
  /\ MarshalJSON_payload now a !! "object" = Some (Str (Object a))
  /\ MarshalJSON_payload now a !! "origin" = Some (Str (Value (Origin a)))
  /\ MarshalJSON_payload now a !! "time"
     = Some (Str (Format (default now (TimeStamp a)))).
Proof.
  destruct (fields_at now a) as (Hactor & Hverb & Hobject & Horigin & _ & _ & _ & _ & Htime & _).
  repeat split; by apply payload_lookup_field.
Qed.

Lemma written_keys_fields now a k :
  k ∈ written_keys a <-> is_Some (fields now a !! k).
Proof.
  unfold is_Some. setoid_rewrite fields_lookup. unfold written_keys.
  rewrite !elem_of_union, !elem_of_singleton. split.
  - intros [[[[[H|H]|H]|H]|H]|H].
    + destruct H as [[[[->| ->]| ->]| ->]| ->]; naive_solver.
    + destruct (String.eqb_spec (ID a) ""); [by apply elem_of_empty in H|].
      apply elem_of_singleton in H as ->. naive_solver.
    + destruct (String.eqb_spec (Target a) ""); [by apply elem_of_empty in H|].
      apply elem_of_singleton in H as ->. naive_solver.
    + destruct (String.eqb_spec (ForeignID a) ""); [by apply elem_of_empty in H|].
      apply elem_of_singleton in H as ->. naive_solver.
    + destruct (Data a) as [raw|] eqn:HD; [|by apply elem_of_empty in H].
      apply elem_of_singleton in H as ->. naive_solver.
    + destruct (To a) as [|f fs] eqn:HT; [by apply elem_of_empty in H|].
      apply elem_of_singleton in H as ->. eexists. do 9 right. done.
  - intros [v H].
    destruct H as [[-> _]|[[-> _]|[[-> _]|[[-> _]|[(-> & Hne & _)|[(-> & Hne & _)|
      [[-> HD]|[(-> & Hne & _)|[[-> _]|(-> & Hne & _)]]]]]]]]].
    + do 5 left. auto.
    + do 5 left. auto.
    + do 5 left. auto.
    + do 5 left. auto.
    + do 4 left. right. destruct (String.eqb_spec (ID a) ""); [done|].
      by apply elem_of_singleton.
    + do 3 left. right. destruct (String.eqb_spec (Target a) ""); [done|].
      by apply elem_of_singleton.
    + do 1 left. right. destruct (Data a); [by apply elem_of_singleton|done].
    + do 2 left. right. destruct (String.eqb_spec (ForeignID a) ""); [done|].
      by apply elem_of_singleton.
    + do 5 left. auto.
    + right. destruct (To a); [done|]. by apply elem_of_singleton.
Qed.

(** X2: the keys of the map that [MarshalJSON] hands to [json.Marshal] are
    the keys [MarshalJSON] writes itself and the keys of the metadata, and
    under every other key than those it writes the map has what the metadata
    has. *)
Theorem MarshalJSON_keys (now : Time) (a : Activity) :
  dom (MarshalJSON_payload now a) = written_keys a ∪ dom (default ∅ (MetaData a))
  /\ (forall k, k ∉ written_keys a ->
        MarshalJSON_payload now a !! k = default ∅ (MetaData a) !! k).
Proof.
  split.
  - apply set_eq. intros k. rewrite MarshalJSON_payload_union, dom_union, !elem_of_union.
    by rewrite !elem_of_dom, (written_keys_fields now).
  - intros k Hk. apply payload_lookup_not_field. apply eq_None_not_Some.
    by rewrite <-written_keys_fields.
Qed.

(** X3: in the map that [MarshalJSON] hands to [json.Marshal], a non-empty
    [To] is under [to] as the list of the strings of its feeds and an empty
    one puts nothing there; a [Data] that is not nil is under [data] as the
    raw message it points to and a nil one puts nothing there; what is not put
    is left as the metadata has it. *)
Theorem MarshalJSON_to_and_data (now : Time) (a : Activity) :
  (To a <> [] ->
   MarshalJSON_payload now a !! "to" = Some (Strings (map to_string (To a))))
  /\ (To a = [] -> MarshalJSON_payload now a !! "to" = default ∅ (MetaData a) !! "to")
  /\ (forall raw, Data a = Some raw ->
        MarshalJSON_payload now a !! "data" = Some (RawMessage raw))
  /\ (Data a = None -> MarshalJSON_payload now a !! "data" = default ∅ (MetaData a) !! "data").
Proof.
  destruct (fields_at now a) as (_ & _ & _ & _ & _ & _ & Hdata & _ & _ & Hto).
  repeat split.
  - intros Hne. apply payload_lookup_field. rewrite Hto. by destruct (To a).
  - intros He. apply payload_lookup_not_field. by rewrite Hto, He.
  - intros raw Hr. apply payload_lookup_field. by rewrite Hdata, Hr.
  - intros Hn. apply payload_lookup_not_field. by rewrite Hdata, Hn.
Qed.

(** ** Further properties of the feed references *)

(** X4: [matchFeed] returns for every string, without a panic, and returns a
    reference exactly for the strings [slug:user] of two words; the reference
    has that slug, that user and no token. *)
Theorem matchFeed_spec (to : string) :
  (exists r, matchFeed to = Done r)
  /\ (forall feed, matchFeed to = Done (Some feed) <->
        exists slug uid, to = slug +:+ ":" +:+ uid /\ is_words slug = true
          /\ is_words uid = true /\ feed = mkGeneralFeed slug uid "").
Proof.
  split; [apply matchFeed_total|]. intros feed. split.
  - intros H. destruct (MatchString feed_pattern to) eqn:Hm;
      [|by rewrite matchFeed_None in H].
    apply feed_pattern_spec in Hm as (slug & uid & -> & Hs & Hu).
    rewrite matchFeed_words in H by done. injection H as <-. eauto 10.
  - intros (slug & uid & -> & Hs & Hu & ->). by apply matchFeed_words.
Qed.

Lemma all_chars_before p sep s :
  all_chars p s = true -> all_chars p (before sep s) = true.
Proof.
  induction s as [|c s IH]; simpl; [done|].
  intros [Hc Hs]%andb_true_iff. destruct (Ascii.eqb c sep); simpl; [done|].
  by rewrite Hc, IH.
Qed.

Lemma all_chars_token p1 p2 p3 s :
  all_chars p1 s = true -> all_chars p2 s = true -> all_chars p3 s = true ->
  all_chars (fun c => p1 c && p2 c && p3 c) s = true.
Proof.
  induction s as [|c s IH]; simpl; [done|].
  intros [-> H1]%andb_true_iff [-> H2]%andb_true_iff [-> H3]%andb_true_iff.
  simpl. by apply IH.
Qed.

Lemma matchFeed_feed_ok to f : matchFeed to = Done (Some f) -> feed_ok f = true.
Proof.
  intros H. destruct (MatchString feed_pattern to) eqn:Hm;
    [|by rewrite matchFeed_None in H].
  apply feed_pattern_spec in Hm as (slug & uid & -> & Hs & Hu).
  rewrite matchFeed_words in H by done. injection H as <-.
  unfold feed_ok. simpl. by rewrite Hs, Hu.
Qed.

Lemma matchFeedWithToken_feed_ok to f :
  matchFeedWithToken to = Done (Some f) -> feed_ok f = true.
Proof.
  intros H. destruct (MatchString feed_token_pattern to) eqn:Hm;
    [|by rewrite matchFeedWithToken_None in H].
  apply feed_token_pattern_spec in Hm as (slug & uid & rest & -> & Hs & Hu & Hr).
  rewrite matchFeedWithToken_words in H by done. injection H as <-.
  unfold feed_ok. simpl. rewrite Hs, Hu. simpl.
  apply all_chars_token.
  - apply before_no_sep.
  - apply all_chars_before, before_no_sep.
  - by do 2 apply all_chars_before.
Qed.

Lemma To_loop_feed_ok tos : forall feed feeds,
  Forall (fun f => feed_ok f = true) feed ->
  To_loop feed tos = Done feeds ->
  Forall (fun f => feed_ok f = true) feeds.
Proof.
  induction tos as [|to tos IH]; intros feed feeds Hok; simpl.
  - by intros [= <-].
  - destruct (matchFeed to) as [|m1] eqn:H1; [done|].
    destruct (matchFeedWithToken to) as [|m2] eqn:H2; [done|]. simpl.
    apply IH.
    destruct m1 as [f1|], m2 as [f2|]; rewrite ?Forall_app, ?Forall_singleton;
      eauto using matchFeed_feed_ok, matchFeedWithToken_feed_ok.
Qed.

(** X5: [To] returns for every value, without a panic, and every feed it
    returns has a word for slug and for user and a token without space, colon
    or line feed. *)
Theorem To_feeds_well_formed (p : payload) :
  exists feeds, payload_To p = Done feeds
    /\ Forall (fun f => feed_ok f = true) feeds.
Proof.
  exists (feeds_of p). split; [apply payload_To_feeds_of|].
  eapply (To_loop_feed_ok (payload_to1D p) []); [constructor|].
  apply payload_To_feeds_of.
Qed.

(** X6: the feeds [To] returns come back from their own strings: encoding
    them as [MarshalJSON] does and decoding the list gives the same feeds. *)
Theorem To_of_decoded_feeds (p : payload) (feeds : list GeneralFeed) :
  payload_To p = Done feeds ->
  payload_To (JArray (map JString (map to_string feeds))) = Done feeds.
Proof.
  intros H. unfold payload_To. rewrite payload_to1D_strings.
  apply (To_loop_to_string feeds []).
  by apply (To_loop_feed_ok (payload_to1D p) []); [constructor|].
Qed.

Lemma To_of_decoded_feeds_witness :
  payload_To (JArray [JString "user:1"; JString "bad"; JString "user:2 tok a"])
  = Done [mkGeneralFeed "user" "1" ""; mkGeneralFeed "user" "2" "tok"]
  /\ payload_To (JArray (map JString (map to_string
       [mkGeneralFeed "user" "1" ""; mkGeneralFeed "user" "2" "tok"])))
     = Done [mkGeneralFeed "user" "1" ""; mkGeneralFeed "user" "2" "tok"].
Proof.
  split; [reflexivity|].
  apply (To_of_decoded_feeds
           (JArray [JString "user:1"; JString "bad"; JString "user:2 tok a"])).
  reflexivity.
Defined.

Lemma To_loop_app l1 : forall feed l2,
  To_loop feed (l1 ++ l2)%list = To_loop feed l1 ≫= fun feed' => To_loop feed' l2.
Proof.
  induction l1 as [|to l1 IH]; intros feed l2; simpl; [done|].
  destruct (matchFeed to) as [|m1]; [done|].
  destruct (matchFeedWithToken to) as [|m2]; [done|]. simpl. apply IH.
Qed.

Lemma To_loop_empty_strings n feed : To_loop feed (replicate n "") = Done feed.
Proof. induction n as [|n IH]; simpl; [done|]. exact IH. Qed.

Lemma Unmarshal_pairs fs :
  Unmarshal_string_elems (map pair_of fs)
  = (replicate (List.length fs) "",
     match fs with [] => None | _ => Some UnmarshalTypeError end)
  /\ Unmarshal_strings_elems (map pair_of fs)
     = (map (fun f => [Value (Feed_FeedID f); Feed_Token f]) fs, None).
Proof.
  induction fs as [|f fs [IH1 IH2]]; simpl; [done|].
  rewrite IH1, IH2. split; [|done]. by destruct fs.
Qed.

Lemma to1D_append_pairs fs : forall to1D,
  to1D_append to1D (map (fun f => [Value (Feed_FeedID f); Feed_Token f]) fs)
  = (to1D ++ map (fun f => Value (Feed_FeedID f) +:+ " " +:+ Feed_Token f) fs)%list.
Proof.
  induction fs as [|f fs IH]; intros to1D; simpl; [by rewrite app_nil_r|].
  rewrite IH. by rewrite <-app_assoc.
Qed.

Lemma match_joined_pair f :
  feed_ok f = true ->
  matchFeed (Value (Feed_FeedID f) +:+ " " +:+ Feed_Token f) = Done None
  /\ matchFeedWithToken (Value (Feed_FeedID f) +:+ " " +:+ Feed_Token f) = Done (Some f).
Proof.
  destruct f as [slug uid tok]. unfold feed_ok, Feed_FeedID, Feed_Token, Value. simpl.
  intros [[Hs Hu]%andb_true_iff Ht]%andb_true_iff.
  apply token_chars in Ht as (Hsp & Hco & Hdot).
  rewrite !str_app_assoc. rewrite matchFeedWithToken_words by done.
  rewrite (before_none tok ":"), (before_none tok " ") by done. split; [|done].
  apply matchFeed_None, not_true_iff_false. intros Hm.
  eapply patterns_exclusive; [exact Hm|]. apply feed_token_pattern_spec. eauto 10.
Qed.

Lemma To_loop_joined_pairs fs : forall feed,
  Forall (fun f => feed_ok f = true) fs ->
  To_loop feed (map (fun f => Value (Feed_FeedID f) +:+ " " +:+ Feed_Token f) fs)
  = Done (feed ++ fs)%list.
Proof.
  induction fs as [|f fs IH]; intros feed Hok; [by rewrite app_nil_r|].
  apply Forall_cons in Hok as [Hf Hfs]. cbn [map To_loop].
  destruct (match_joined_pair f Hf) as [-> ->]. cbn [mbind outcome_bind].
  rewrite IH by done. by rewrite <-app_assoc.
Qed.

(** X7: the second shape of [to], a list of lists [[feed, token]], is decoded
    to the feeds with their tokens, one for each inner list. *)
Theorem To_of_pairs (fs : list GeneralFeed) :
  Forall (fun f => feed_ok f = true) fs ->
  payload_To (JArray (map pair_of fs)) = Done fs.
Proof.
  intros Hok. unfold payload_To, payload_to1D.
  cbn [Unmarshal_strings Unmarshal_strings2].
  destruct (Unmarshal_pairs fs) as [-> ->].
  destruct fs as [|f fs]; [done|].
  rewrite to1D_append_pairs, To_loop_app, To_loop_empty_strings.
  cbn [mbind outcome_bind]. by rewrite To_loop_joined_pairs.
Qed.

Lemma To_of_pairs_witness :
  Forall (fun f => feed_ok f = true)
    [mkGeneralFeed "user" "1" "tok"; mkGeneralFeed "flat" "2" ""]
  /\ payload_To (JArray [JArray [JString "user:1"; JString "tok"];
                         JArray [JString "flat:2"; JString ""]])
     = Done [mkGeneralFeed "user" "1" "tok"; mkGeneralFeed "flat" "2" ""].
Proof.
  assert (Forall (fun f => feed_ok f = true)
            [mkGeneralFeed "user" "1" "tok"; mkGeneralFeed "flat" "2" ""]) as Hok
    by (repeat constructor).
  split; [exact Hok|].
  exact (To_of_pairs [mkGeneralFeed "user" "1" "tok"; mkGeneralFeed "flat" "2" ""] Hok).
Defined.

Lemma Unmarshal_string_elems_fst l :
  (Unmarshal_string_elems l).1 = map payload_String l.
Proof.
  induction l as [|j l IH]; simpl; [done|].
  destruct (Unmarshal_string_elem j) as [s e] eqn:Hj.
  destruct (Unmarshal_string_elems l) as [ss e'] eqn:Hl. simpl in *.
  rewrite <-IH. f_equal. unfold payload_String, Unmarshal_string_elem in *. by rewrite Hj.
Qed.

Lemma Unmarshal_strings_elems_string l s :
  JString s ∈ l -> is_Some (Unmarshal_strings_elems l).2.
Proof.
  induction l as [|j l IH]; [by intros ?%elem_of_nil|].
  intros [<-|Hin]%elem_of_cons; simpl.
  - destruct (Unmarshal_strings_elems l). simpl. eauto.
  - destruct (Unmarshal_strings j []) as [ss e].
    destruct (Unmarshal_strings_elems l) as [sss e']. simpl in *.
    destruct e; simpl; [eauto|]. by apply IH.
Qed.

(** X8: for an array with a string among its elements, [to1D] returns one
    string for each element: the string itself, and the empty string for an
    element that is not a string. *)
Theorem to1D_of_mixed_list (l : list json) (s : string) :
  JString s ∈ l -> payload_to1D (JArray l) = map payload_String l.
Proof.
  intros Hin. unfold payload_to1D. simpl.
  pose proof (Unmarshal_string_elems_fst l) as Hfst.
  pose proof (Unmarshal_strings_elems_string l s Hin) as [e He].
  destruct (Unmarshal_string_elems l) as [to1D err]. simpl in Hfst. subst to1D.
  destruct err; [|done].
  destruct (Unmarshal_strings_elems l) as [to2D err2]. simpl in He. by subst.
Qed.

Lemma to1D_of_mixed_list_witness :
  JString "user:1" ∈ [JString "user:1"; JNumber "5"; JArray [JString "user:2"]]
  /\ payload_to1D (JArray [JString "user:1"; JNumber "5"; JArray [JString "user:2"]])
     = ["user:1"; ""; ""].
Proof.
  assert (JString "user:1" ∈ [JString "user:1"; JNumber "5"; JArray [JString "user:2"]])
    as Hin by (left).
  split; [exact Hin|].
  exact (to1D_of_mixed_list _ "user:1" Hin).
Defined.

(** ** Further properties of the decoder *)

Lemma UnmarshalJSON_object order a m :
  iteration_order order ->
  exists entries a1 md,
    entries ≡ₚ map_to_list m
    /\ UnmarshalJSON_range entries a ∅ = Done (a1, md)
    /\ UnmarshalJSON order a (Valid (JObject m)) = Done (set_MetaData (Some md) a1, None).
Proof.
  intros Ho.
  destruct (UnmarshalJSON_inv order a (Valid (JObject m)) Ho)
    as [(e & [=] & _)|(m' & entries & a1 & md & [= <-] & Hp & Hr & Hd)].
  eauto 10.
Qed.

Lemma payload_String_string_or_empty v : payload_String v = string_or_empty v.
Proof. by destruct v. Qed.

Section one_field.
Context {T : Type} (get : Activity -> T) (dec : payload -> T) (name : string).
Hypothesis Hbody : forall key value a md a1 md1,
  UnmarshalJSON_body key value a md = Done (a1, md1) ->
  get a1 = if hits name (key, value) then dec value else get a.
Context (m : gmap string json) (entries : list (string * json)).
Hypothesis Hentries : entries ≡ₚ map_to_list m.
Context (a a1 : Activity) (md : gmap string any).
Hypothesis Hrange : UnmarshalJSON_range entries a ∅ = Done (a1, md).

Lemma field_untouched : untouched name m -> get a1 = get a.
Proof.
  intros Hu. apply (range_field_keep get dec name Hbody entries a ∅ a1 md Hrange).
  intros [k v] Hin. apply (elem_of_order m) in Hin; [|done]. by apply Hu.
Qed.

Lemma field_only_value v : only_value name m v -> get a1 = dec v.
Proof.
  intros [(k & Hk & Hh) Hall].
  apply (range_field_set get dec name Hbody (dec v) entries a ∅ a1 md Hrange).
  - intros [k' v'] Hin Hh'. apply (elem_of_order m) in Hin; [|done].
    by rewrite (Hall k' v' Hin Hh').
  - exists (k, v). split; [by apply (elem_of_order m)|done].
Qed.
End one_field.

(** X9: decoding an object leaves a field as the receiver had it when no
    member that is not null has a key that lower-cases to the name of the
    field; in particular members that are null change nothing. *)
Theorem UnmarshalJSON_keeps_untouched
    (order : gmap string payload -> list (string * payload))
    (a : Activity) (m : gmap string json) :
  iteration_order order ->
  exists a', UnmarshalJSON order a (Valid (JObject m)) = Done (a', None)
    /\ (untouched "id" m -> ID a' = ID a)
    /\ (untouched "actor" m -> Actor a' = Actor a)
    /\ (untouched "verb" m -> Verb a' = Verb a)
    /\ (untouched "object" m -> Object a' = Object a)
    /\ (untouched "target" m -> Target a' = Target a)
    /\ (untouched "origin" m -> Origin a' = Origin a)
    /\ (untouched "time" m -> TimeStamp a' = TimeStamp a)
    /\ (untouched "foreign_id" m -> ForeignID a' = ForeignID a)
    /\ (untouched "data" m -> Data a' = Data a)
    /\ (untouched "to" m -> To a' = To a).
Proof.
  intros Ho. destruct (UnmarshalJSON_object order a m Ho) as (entries & a1 & md & Hp & Hr & ->).
  eexists. split; [done|]. simpl.
  repeat split.
  - exact (field_untouched ID payload_String "id" body_ID m entries Hp a a1 md Hr).
  - exact (field_untouched Actor payload_String "actor" body_Actor m entries Hp a a1 md Hr).
  - exact (field_untouched Verb payload_String "verb" body_Verb m entries Hp a a1 md Hr).
  - exact (field_untouched Object payload_String "object" body_Object m entries Hp a a1 md Hr).
  - exact (field_untouched Target payload_String "target" body_Target m entries Hp a a1 md Hr).
  - exact (field_untouched Origin payload_String "origin" body_Origin m entries Hp a a1 md Hr).
  - exact (field_untouched TimeStamp payload_TimeStamp "time" body_TimeStamp m entries Hp a a1
             md Hr).
  - exact (field_untouched ForeignID payload_String "foreign_id" body_ForeignID m entries Hp
             a a1 md Hr).
  - exact (field_untouched Data (fun j => Some (Valid j)) "data" body_Data m entries Hp
             a a1 md Hr).
  - exact (field_untouched To feeds_of "to" body_To m entries Hp a a1 md Hr).
Qed.

Lemma UnmarshalJSON_keeps_untouched_witness :
  iteration_order map_to_list
  /\ untouched "actor" ({["verb" := JString "like"; "actor" := JNull]} : gmap string json)
  /\ exists a',
       UnmarshalJSON map_to_list an_activity
         (Valid (JObject {["verb" := JString "like"; "actor" := JNull]})) = Done (a', None)
       /\ Actor a' = "A".
Proof.
  assert (iteration_order map_to_list) as Ho by (intros m; reflexivity).
  assert (untouched "actor" ({["verb" := JString "like"; "actor" := JNull]}
                               : gmap string json)) as Hu.
  { intros k v [[<- <-]|[_ [<- <-]%lookup_singleton_Some]]%lookup_insert_Some; reflexivity. }
  split; [exact Ho|]. split; [exact Hu|].
  destruct (UnmarshalJSON_keeps_untouched map_to_list an_activity
              {["verb" := JString "like"; "actor" := JNull]} Ho)
    as (a' & Hdec & _ & Hactor & _).
  exists a'. split; [exact Hdec|]. exact (Hactor Hu).
Defined.

(** X10: when the members dispatched to a string field all have the value
    [v], the field after decoding is the string of [v] when [v] is a JSON
    string, and the empty string when it is not, whatever the receiver had. *)
Theorem UnmarshalJSON_string_fields
    (order : gmap string payload -> list (string * payload))
    (a : Activity) (m : gmap string json) :
  iteration_order order ->
  exists a', UnmarshalJSON order a (Valid (JObject m)) = Done (a', None)
    /\ forall v,
        (only_value "id" m v -> ID a' = string_or_empty v)
        /\ (only_value "actor" m v -> Actor a' = string_or_empty v)
        /\ (only_value "verb" m v -> Verb a' = string_or_empty v)
        /\ (only_value "object" m v -> Object a' = string_or_empty v)
        /\ (only_value "target" m v -> Target a' = string_or_empty v)
        /\ (only_value "origin" m v -> Origin a' = string_or_empty v)
        /\ (only_value "foreign_id" m v -> ForeignID a' = string_or_empty v).
Proof.
  intros Ho. destruct (UnmarshalJSON_object order a m Ho) as (entries & a1 & md & Hp & Hr & ->).
  eexists. split; [done|]. simpl. intros v.
  rewrite <-payload_String_string_or_empty.
  repeat split.
  - exact (field_only_value ID payload_String "id" body_ID m entries Hp a a1 md Hr v).
  - exact (field_only_value Actor payload_String "actor" body_Actor m entries Hp a a1 md Hr v).
  - exact (field_only_value Verb payload_String "verb" body_Verb m entries Hp a a1 md Hr v).
  - exact (field_only_value Object payload_String "object" body_Object m entries Hp a a1 md
             Hr v).
  - exact (field_only_value Target payload_String "target" body_Target m entries Hp a a1 md
             Hr v).
  - exact (field_only_value Origin payload_String "origin" body_Origin m entries Hp a a1 md
             Hr v).
  - exact (field_only_value ForeignID payload_String "foreign_id" body_ForeignID m entries Hp
             a a1 md Hr v).
Qed.

Lemma UnmarshalJSON_string_fields_witness :
  iteration_order map_to_list
  /\ only_value "verb" ({["Verb" := JNumber "7"]} : gmap string json) (JNumber "7")
  /\ exists a',
       UnmarshalJSON map_to_list an_activity (Valid (JObject {["Verb" := JNumber "7"]}))
       = Done (a', None)
       /\ Verb a' = "".
Proof.
  assert (iteration_order map_to_list) as Ho by (intros m; reflexivity).
  assert (only_value "verb" ({["Verb" := JNumber "7"]} : gmap string json) (JNumber "7"))
    as Hv.
  { split; [exists "Verb"; split; reflexivity|].
    by intros k' v' [_ <-]%lookup_singleton_Some _. }
  split; [exact Ho|]. split; [exact Hv|].
  destruct (UnmarshalJSON_string_fields map_to_list an_activity
              {["Verb" := JNumber "7"]} Ho) as (a' & Hdec & Hall).
  exists a'. split; [exact Hdec|].
  destruct (Hall (JNumber "7")) as (_ & _ & Hverb & _). exact (Hverb Hv).
Defined.

Lemma payload_To_not_array v :
  is_null v = false -> (forall l, v <> JArray l) -> payload_To v = Done [].
Proof. intros Hn Ha. destruct v; try done. by destruct (Ha l). Qed.

(** X11: when the members dispatched to the field all have the value [v],
    [Data] is the bytes of [v], the timestamp is what the layout parses of
    [v], nil when [v] is not a string, and [To] is what [To()] returns for
    [v], the empty list when [v] is not an array. *)
Theorem UnmarshalJSON_data_time_to
    (order : gmap string payload -> list (string * payload))
    (a : Activity) (m : gmap string json) :
  iteration_order order ->
  exists a', UnmarshalJSON order a (Valid (JObject m)) = Done (a', None)
    /\ forall v,
        (only_value "data" m v -> Data a' = Some (Valid v))
        /\ (only_value "time" m v ->
            TimeStamp a' = match v with JString s => Parse s | _ => None end)
        /\ (only_value "to" m v -> payload_To v = Done (To a'))
        /\ (only_value "to" m v -> (forall l, v <> JArray l) -> To a' = []).
Proof.
  intros Ho. destruct (UnmarshalJSON_object order a m Ho) as (entries & a1 & md & Hp & Hr & ->).
  eexists. split; [done|]. simpl. intros v.
  assert (only_value "to" m v -> To a1 = feeds_of v) as Hto
    by exact (field_only_value To feeds_of "to" body_To m entries Hp a a1 md Hr v).
  repeat split.
  - exact (field_only_value Data (fun j => Some (Valid j)) "data" body_Data m entries Hp
             a a1 md Hr v).
  - intros Hv.
    rewrite (field_only_value TimeStamp payload_TimeStamp "time" body_TimeStamp m entries Hp
               a a1 md Hr v Hv).
    by destruct v.
  - intros Hv. rewrite (Hto Hv). apply payload_To_feeds_of.
  - intros Hv Ha. rewrite (Hto Hv). unfold feeds_of. rewrite payload_To_not_array; [done| |done].
    destruct Hv as [(k & _ & Hh) _]. unfold hits in Hh. simpl in Hh.
    by apply andb_true_iff in Hh as [?%negb_true_iff _].
Qed.

Lemma UnmarshalJSON_data_time_to_witness :
  iteration_order map_to_list
  /\ only_value "to" ({["to" := JNumber "5"]} : gmap string json) (JNumber "5")
  /\ exists a',
       UnmarshalJSON map_to_list an_activity (Valid (JObject {["to" := JNumber "5"]}))
       = Done (a', None)
       /\ To a' = [].
Proof.
  assert (iteration_order map_to_list) as Ho by (intros m; reflexivity).
  assert (only_value "to" ({["to" := JNumber "5"]} : gmap string json) (JNumber "5")) as Hv.
  { split; [exists "to"; split; reflexivity|].
    by intros k' v' [_ <-]%lookup_singleton_Some _. }
  split; [exact Ho|]. split; [exact Hv|].
  destruct (UnmarshalJSON_data_time_to map_to_list an_activity
              {["to" := JNumber "5"]} Ho) as (a' & Hdec & Hall).
  exists a'. split; [exact Hdec|].
  destruct (Hall (JNumber "5")) as (_ & _ & _ & Hto). apply (Hto Hv). discriminate.
Defined.

(** ** The order of the loop *)

Lemma iteration_order_reverse :
  iteration_order (fun m => reverse (map_to_list m)).
Proof. intros m. apply reverse_Permutation. Qed.

Section any_order.
Context {T : Type} (get : Activity -> T) (dec : payload -> T) (name : string).
Hypothesis Hbody : forall key value a md a1 md1,
  UnmarshalJSON_body key value a md = Done (a1, md1) ->
  get a1 = if hits name (key, value) then dec value else get a.
Hypothesis Hname : recognized name = true.
Context (m : gmap string json).
Hypothesis Hfree : case_collision_free m.

Lemma untouched_or_only_value :
  untouched name m \/ exists v, only_value name m v.
Proof.
  destruct (decide (Exists (fun kv => hits name kv = true) (map_to_list m)))
    as [Hex|Hno].
  - right. apply Exists_exists in Hex as ([k v] & Hin & Hh).
    apply elem_of_map_to_list in Hin. exists v. split; [eauto|].
    intros k' v' Hk' Hh'.
    assert (k' = k) as ->; [|congruence].
    unfold hits in Hh, Hh'. simpl in Hh, Hh'.
    apply andb_true_iff in Hh as [Hn%negb_true_iff Hl%String.eqb_eq].
    apply andb_true_iff in Hh' as [Hn'%negb_true_iff Hl'%String.eqb_eq].
    apply (Hfree k' k v' v); [done..|congruence|congruence].
  - left. intros k v Hk. apply not_true_iff_false. intros Hh. apply Hno.
    apply Exists_exists. exists (k, v). split; [by apply elem_of_map_to_list|done].
Qed.

Lemma field_any_order entries1 entries2 a a1 a2 md1 md2 :
  entries1 ≡ₚ map_to_list m -> entries2 ≡ₚ map_to_list m ->
  UnmarshalJSON_range entries1 a ∅ = Done (a1, md1) ->
  UnmarshalJSON_range entries2 a ∅ = Done (a2, md2) ->
  get a1 = get a2.
Proof.
  intros Hp1 Hp2 Hr1 Hr2. destruct untouched_or_only_value as [Hu|[v Hv]].
  - rewrite (field_untouched get dec name Hbody m entries1 Hp1 a a1 md1 Hr1 Hu).
    by rewrite (field_untouched get dec name Hbody m entries2 Hp2 a a2 md2 Hr2 Hu).
  - rewrite (field_only_value get dec name Hbody m entries1 Hp1 a a1 md1 Hr1 v Hv).
    by rewrite (field_only_value get dec name Hbody m entries2 Hp2 a a2 md2 Hr2 v Hv).
Qed.
End any_order.

(** X12: when no two members that are not null have keys that differ and
    lower-case to one recognized name, decoding does not depend on the order
    in which the loop visits the map. *)
Theorem UnmarshalJSON_order_independent
    (order1 order2 : gmap string payload -> list (string * payload))
    (a : Activity) (m : gmap string json) :
  iteration_order order1 -> iteration_order order2 ->
  case_collision_free m ->
  UnmarshalJSON order1 a (Valid (JObject m)) = UnmarshalJSON order2 a (Valid (JObject m)).
Proof.
  intros Ho1 Ho2 Hfree.
  destruct (UnmarshalJSON_object order1 a m Ho1) as (e1 & a1 & md1 & Hp1 & Hr1 & ->).
  destruct (UnmarshalJSON_object order2 a m Ho2) as (e2 & a2 & md2 & Hp2 & Hr2 & ->).
  rewrite (UnmarshalJSON_range_metadata_map m e1 a a1 md1 Hp1 Hr1).
  rewrite (UnmarshalJSON_range_metadata_map m e2 a a2 md2 Hp2 Hr2).
  do 2 f_equal. apply Activity_eq; simpl; try done.
  - exact (field_any_order ID payload_String "id" body_ID eq_refl m Hfree
             e1 e2 a a1 a2 md1 md2 Hp1 Hp2 Hr1 Hr2).
  - exact (field_any_order Actor payload_String "actor" body_Actor eq_refl m Hfree
             e1 e2 a a1 a2 md1 md2 Hp1 Hp2 Hr1 Hr2).
  - exact (field_any_order Verb payload_String "verb" body_Verb eq_refl m Hfree
             e1 e2 a a1 a2 md1 md2 Hp1 Hp2 Hr1 Hr2).
  - exact (field_any_order Object payload_String "object" body_Object eq_refl m Hfree
             e1 e2 a a1 a2 md1 md2 Hp1 Hp2 Hr1 Hr2).
  - exact (field_any_order Target payload_String "target" body_Target eq_refl m Hfree
             e1 e2 a a1 a2 md1 md2 Hp1 Hp2 Hr1 Hr2).
  - exact (field_any_order Origin payload_String "origin" body_Origin eq_refl m Hfree
             e1 e2 a a1 a2 md1 md2 Hp1 Hp2 Hr1 Hr2).
  - exact (field_any_order TimeStamp payload_TimeStamp "time" body_TimeStamp eq_refl m Hfree
             e1 e2 a a1 a2 md1 md2 Hp1 Hp2 Hr1 Hr2).
  - exact (field_any_order ForeignID payload_String "foreign_id" body_ForeignID eq_refl m
             Hfree e1 e2 a a1 a2 md1 md2 Hp1 Hp2 Hr1 Hr2).
  - exact (field_any_order Data (fun j => Some (Valid j)) "data" body_Data eq_refl m Hfree
             e1 e2 a a1 a2 md1 md2 Hp1 Hp2 Hr1 Hr2).
  - exact (field_any_order To feeds_of "to" body_To eq_refl m Hfree
             e1 e2 a a1 a2 md1 md2 Hp1 Hp2 Hr1 Hr2).
Qed.

Lemma UnmarshalJSON_order_independent_witness :
  iteration_order map_to_list
  /\ iteration_order (fun m => reverse (map_to_list m))
  /\ case_collision_free ({["Actor" := JString "A"; "verb" := JString "post"]}
                            : gmap string json)
  /\ UnmarshalJSON map_to_list zero
       (Valid (JObject {["Actor" := JString "A"; "verb" := JString "post"]}))
     = UnmarshalJSON (fun m => reverse (map_to_list m)) zero
         (Valid (JObject {["Actor" := JString "A"; "verb" := JString "post"]})).
Proof.
  assert (iteration_order map_to_list) as Ho1 by (intros m; reflexivity).
  assert (iteration_order (fun m => reverse (map_to_list m))) as Ho2
    by exact iteration_order_reverse.
  assert (case_collision_free ({["Actor" := JString "A"; "verb" := JString "post"]}
                                 : gmap string json)) as Hfree.
  { intros k1 k2 v1 v2
      [[<- <-]|[_ [<- <-]%lookup_singleton_Some]]%lookup_insert_Some
      [[<- <-]|[_ [<- <-]%lookup_singleton_Some]]%lookup_insert_Some _ _ Hl _;
      first [reflexivity | discriminate Hl]. }
  split; [exact Ho1|]. split; [exact Ho2|]. split; [exact Hfree|].
  exact (UnmarshalJSON_order_independent map_to_list (fun m => reverse (map_to_list m))
           zero {["Actor" := JString "A"; "verb" := JString "post"]} Ho1 Ho2 Hfree).
Defined.

(** Two keys that differ in case only: the field is the value the loop
    visits last. *)
Example decode_depends_on_order :
  UnmarshalJSON map_to_list zero
    (Valid (JObject {["actor" := JString "x"; "ACTOR" := JString "y"]}))
  = Done (set_Actor "y" (set_MetaData (Some ∅) zero), None)
  /\ UnmarshalJSON (fun m => reverse (map_to_list m)) zero
       (Valid (JObject {["actor" := JString "x"; "ACTOR" := JString "y"]}))
     = Done (set_Actor "x" (set_MetaData (Some ∅) zero), None).
Proof. split; reflexivity. Qed.

(** ** Further properties of the timestamp *)

Lemma get_app_l s t i :
  i < String.length s -> String.get i (s +:+ t) = String.get i s.
Proof.
  revert i. induction s as [|c s IH]; intros i Hi; cbn [String.length] in Hi; [lia|].
  rewrite str_app_cons. destruct i as [|i]; cbn [String.get]; [done|]. apply IH. lia.
Qed.

Lemma take_str_app_l s t n :
  n <= String.length s -> take_str n (s +:+ t) = take_str n s.
Proof.
  revert n. induction s as [|c s IH]; intros n Hn; cbn [String.length] in Hn.
  - replace n with 0 by lia. by destruct t.
  - rewrite str_app_cons. destruct n as [|n]; cbn [take_str]; [done|].
    rewrite IH; [done|lia].
Qed.

Lemma trim_zeros_app_l s t t' k :
  k <= String.length s -> trim_zeros k (s +:+ t) = trim_zeros k (s +:+ t').
Proof.
  induction k as [|k IH]; intros Hk; cbn [trim_zeros]; [done|].
  unfold char_at. rewrite !get_app_l by lia. rewrite IH by lia. done.
Qed.

Lemma trim_zeros_le buf k : trim_zeros k buf <= k.
Proof.
  induction k as [|k IH]; cbn [trim_zeros]; [done|].
  destruct (Ascii.eqb _ _); lia.
Qed.

(** [formatNano] looks at the microseconds only. *)
Lemma formatNano_microseconds ns :
  formatNano ns = formatNano (ns - ns mod 1000)%Z.
Proof.
  unfold formatNano.
  pose proof (pad_split 3 6 ns) as H1. pose proof (pad_split 3 6 (ns - ns mod 1000)%Z) as H2.
  change (6 + 3) with 9 in H1, H2. change (pow10 3) with 1000%Z in H1, H2.
  assert ((ns - ns mod 1000) / 1000 = ns / 1000)%Z as Hdiv.
  { rewrite (Z.div_mod ns 1000) at 1 by lia.
    replace (1000 * (ns / 1000) + ns mod 1000 - ns mod 1000)%Z
      with (ns / 1000 * 1000)%Z by lia.
    apply Z.div_mul. lia. }
  rewrite Hdiv in H2. rewrite H1, H2.
  pose proof (pad_length 6 (ns / 1000)) as Hl.
  rewrite (trim_zeros_app_l _ (pad 3 ns) (pad 3 (ns - ns mod 1000)%Z)) by lia.
  pose proof (trim_zeros_le (pad 6 (ns / 1000) +:+ pad 3 (ns - ns mod 1000)%Z) 6) as Hle.
  rewrite !take_str_app_l by lia. done.
Qed.

Lemma on_the_wire_exact t :
  valid_time t = true -> four_digit_year t = true -> layout_exact (on_the_wire t) = true.
Proof.
  unfold layout_exact, on_the_wire, valid_time, four_digit_year.
  cbn [Year Month Day Hour Minute Second Nanosecond ZoneOffset].
  rewrite !andb_true_iff, !Z.leb_le, !Z.ltb_lt, Z.eqb_eq.
  intros H Hy. pose proof (Z.mod_pos_bound (Nanosecond t) 1000 ltac:(lia)).
  assert ((Nanosecond t - Nanosecond t mod 1000) mod 1000 = 0)%Z as Hmod.
  { rewrite (Z.div_mod (Nanosecond t) 1000) at 1 by lia.
    replace (1000 * (Nanosecond t / 1000) + Nanosecond t mod 1000 - Nanosecond t mod 1000)%Z
      with (Nanosecond t / 1000 * 1000)%Z by lia.
    apply Z.mod_mul. lia. }
  pose proof (Z.mod_le (Nanosecond t) 1000 ltac:(lia) ltac:(lia)).
  repeat split; try lia; done.
Qed.

Lemma Format_on_the_wire t : Format (on_the_wire t) = Format t.
Proof.
  unfold Format, on_the_wire.
  cbn [Year Month Day Hour Minute Second Nanosecond ZoneOffset].
  by rewrite <-formatNano_microseconds.
Qed.

(** What [Parse] reads of what [Format] writes. *)
Lemma Parse_Format_on_the_wire t :
  valid_time t = true -> four_digit_year t = true ->
  Parse (Format t) = Some (on_the_wire t).
Proof.
  intros Hv Hy. rewrite <-Format_on_the_wire. by apply Parse_Format, on_the_wire_exact.
Qed.

(** X13: the string [MarshalJSON] writes for a time with a year of four
    digits is read back by [TimeStamp()] as that time cut to whole
    microseconds, in UTC. *)
Theorem TimeStamp_of_Format (t : Time) :
  valid_time t = true -> four_digit_year t = true ->
  payload_TimeStamp (JString (Format t)) = Some (on_the_wire t).
Proof.
  intros Hv Hy. unfold payload_TimeStamp. cbn [Unmarshal_string].
  by apply Parse_Format_on_the_wire.
Qed.

Lemma TimeStamp_of_Format_witness :
  valid_time (mkTime 2024 2 29 23 59 59 999999999 3600) = true
  /\ four_digit_year (mkTime 2024 2 29 23 59 59 999999999 3600) = true
  /\ payload_TimeStamp (JString (Format (mkTime 2024 2 29 23 59 59 999999999 3600)))
     = Some (mkTime 2024 2 29 23 59 59 999999000 0).
Proof.
  split; [reflexivity|]. split; [reflexivity|].
  exact (TimeStamp_of_Format (mkTime 2024 2 29 23 59 59 999999999 3600) eq_refl eq_refl).
Defined.

(** ** What [Parse] returns *)

Lemma digit_val_bound c : is_digit c = true -> (0 <= digit_val c <= 9)%Z.
Proof.
  destruct c as [[] [] [] [] [] [] [] []]; intros H;
    first [discriminate H | vm_compute; split; discriminate].
Qed.

Lemma getnum_bound s fixed n rest :
  getnum s fixed = Some (n, rest) -> (0 <= n <= 99)%Z.
Proof.
  unfold getnum. destruct s as [|c0 s1]; [done|].
  destruct (is_digit c0) eqn:H0; [|done]. apply digit_val_bound in H0.
  destruct s1 as [|c1 s2].
  - destruct fixed; [done|]. intros [= <- _]. lia.
  - destruct (is_digit c1) eqn:H1.
    + apply digit_val_bound in H1. intros [= <- _]. lia.
    + destruct fixed; [done|]. intros [= <- _]. lia.
Qed.

Lemma atoi_from_bound s : forall acc y,
  (0 <= acc)%Z -> atoi_from acc s = Some y ->
  (acc * pow10 (String.length s) <= y < (acc + 1) * pow10 (String.length s))%Z.
Proof.
  induction s as [|c s IH]; intros acc y Hacc; cbn [atoi_from String.length].
  - intros [= <-]. change (pow10 0) with 1%Z. lia.
  - destruct (is_digit c) eqn:Hc; [|done]. apply digit_val_bound in Hc.
    intros H. apply IH in H; [|lia]. rewrite pow10_S.
    pose proof (pow10_pos (String.length s)). nia.
Qed.

Lemma atoi_bound s y :
  atoi s = Some y -> (0 <= y < pow10 (String.length s))%Z.
Proof.
  unfold atoi. destruct s as [|c s]; [done|].
  intros H%atoi_from_bound; [|lia]. lia.
Qed.

Lemma take_str_length n s : String.length (take_str n s) <= n.
Proof.
  revert s. induction n as [|n IH]; intros [|c s]; cbn [take_str String.length]; try lia.
  specialize (IH s). lia.
Qed.

Lemma pow10_le j k : j <= k -> (pow10 j <= pow10 k)%Z.
Proof.
  intros H. unfold pow10. apply Z.pow_le_mono_r; lia.
Qed.

Lemma getyear_bound value y rest :
  getyear value = Some (y, rest) -> (0 <= y <= 9999)%Z.
Proof.
  unfold getyear. destruct (_ || _); [done|].
  destruct (atoi (take_str 4 value)) as [y'|] eqn:Ha; [|done].
  cbn [mbind option_bind]. intros [= <- _].
  apply atoi_bound in Ha. pose proof (take_str_length 4 value) as Hl.
  apply pow10_le in Hl. change (pow10 4) with 10000%Z in Hl. lia.
Qed.

Lemma getfrac_bound value ns rest :
  getfrac value = Some (ns, rest) -> (0 <= ns < 1000000000)%Z.
Proof.
  unfold getfrac. destruct value as [|c0 [|c1 s]]; try (intros [= <- _]; lia).
  destruct (_ && _); [|intros [= <- _]; lia].
  destruct (span_digits (String c1 s)) as [ds rest'].
  destruct (atoi (take_str 9 ds)) as [n|] eqn:Ha; [|done].
  cbn [mbind option_bind]. intros [= <- _].
  apply atoi_bound in Ha. pose proof (take_str_length 9 ds) as Hl.
  change (10 ^ Z.of_nat (9 - String.length (take_str 9 ds)))%Z
    with (pow10 (9 - String.length (take_str 9 ds))).
  pose proof (pow10_pos (9 - String.length (take_str 9 ds))) as Hpos.
  assert (pow10 (String.length (take_str 9 ds))
          * pow10 (9 - String.length (take_str 9 ds)) = 1000000000)%Z as Hmul.
  { rewrite <-pow10_add. replace (_ + _) with 9 by lia. reflexivity. }
  split; [apply Z.mul_nonneg_nonneg; lia|].
  rewrite <-Hmul. apply Z.mul_lt_mono_pos_r; lia.
Qed.

(** A time that [Parse] returns is a date of the calendar, in UTC, with a
    year of four digits. *)
Lemma Parse_valid s t :
  Parse s = Some t ->
  valid_time t = true /\ four_digit_year t = true /\ ZoneOffset t = 0%Z.
Proof.
  unfold Parse.
  destruct (getyear s) as [[year v1]|] eqn:Hy; [|done]. cbn [mbind option_bind].
  destruct (skip v1 "-") as [v2|]; [|done]. cbn [mbind option_bind].
  destruct (getnum v2 true) as [[month v3]|] eqn:Hm; [|done]. cbn [mbind option_bind].
  destruct (negb _) eqn:Hmr; [done|].
  destruct (skip v3 "-") as [v4|]; [|done]. cbn [mbind option_bind].
  destruct (getnum v4 true) as [[day v5]|] eqn:Hd; [|done]. cbn [mbind option_bind].
  destruct (skip v5 "T") as [v6|]; [|done]. cbn [mbind option_bind].
  destruct (getnum v6 false) as [[hour v7]|] eqn:Hh; [|done]. cbn [mbind option_bind].
  destruct (negb (hour <? 24)%Z) eqn:Hhr; [done|].
  destruct (skip v7 ":") as [v8|]; [|done]. cbn [mbind option_bind].
  destruct (getnum v8 true) as [[min v9]|] eqn:Hmi; [|done]. cbn [mbind option_bind].
  destruct (negb (min <? 60)%Z) eqn:Hmir; [done|].
  destruct (skip v9 ":") as [v10|]; [|done]. cbn [mbind option_bind].
  destruct (getnum v10 true) as [[sec v11]|] eqn:Hs; [|done]. cbn [mbind option_bind].
  destruct (negb (sec <? 60)%Z) eqn:Hsr; [done|].
  destruct (getfrac v11) as [[nsec v12]|] eqn:Hf; [|done]. cbn [mbind option_bind].
  destruct (negb (String.eqb v12 "")); [done|].
  destruct (negb ((1 <=? day)%Z && (day <=? daysIn month year)%Z)) eqn:Hdr; [done|].
  intros [= <-].
  apply getyear_bound in Hy. apply getnum_bound in Hm, Hd, Hh, Hmi, Hs.
  apply getfrac_bound in Hf.
  apply negb_false_iff in Hmr, Hhr, Hmir, Hsr, Hdr.
  apply andb_true_iff in Hmr as [?%Z.leb_le ?%Z.leb_le].
  apply andb_true_iff in Hdr as [?%Z.leb_le ?%Z.leb_le].
  apply Z.ltb_lt in Hhr, Hmir, Hsr.
  unfold valid_time, four_digit_year.
  cbn [Year Month Day Hour Minute Second Nanosecond ZoneOffset].
  rewrite !andb_true_iff, !Z.leb_le, !Z.ltb_lt. repeat split; lia.
Qed.

(** X14: a timestamp that [TimeStamp()] returns comes from a JSON string, is
    a date of the calendar in UTC with a year of four digits, and written and
    read again is itself cut to whole microseconds. *)
Theorem TimeStamp_is_valid (v : json) (t : Time) :
  payload_TimeStamp v = Some t ->
  (exists s, v = JString s /\ Parse s = Some t)
  /\ valid_time t = true /\ four_digit_year t = true /\ ZoneOffset t = 0%Z
  /\ payload_TimeStamp (JString (Format t)) = Some (on_the_wire t).
Proof.
  intros H.
  assert (exists s, v = JString s /\ Parse s = Some t) as (s & -> & Hs).
  { destruct v; try done. eauto. }
  destruct (Parse_valid s t Hs) as (Hv & Hy & Hz).
  split; [eauto|]. split; [done|]. split; [done|]. split; [done|].
  unfold payload_TimeStamp. cbn [Unmarshal_string].
  by apply Parse_Format_on_the_wire.
Qed.

Lemma TimeStamp_is_valid_witness :
  payload_TimeStamp (JString "2024-02-29T7:08:09,1234567") = Some
    (mkTime 2024 2 29 7 8 9 123456700 0)
  /\ payload_TimeStamp (JString (Format (mkTime 2024 2 29 7 8 9 123456700 0)))
     = Some (mkTime 2024 2 29 7 8 9 123456000 0).
Proof.
  split; [reflexivity|].
  destruct (TimeStamp_is_valid (JString "2024-02-29T7:08:09,1234567")
              (mkTime 2024 2 29 7 8 9 123456700 0) eq_refl) as (_ & _ & _ & _ & H).
  exact H.
Defined.

(** Encoding does not tell a timestamp from what the layout keeps of it, an
    unset timestamp from the current time, nor a nil metadata map from an
    empty one. *)
Lemma MarshalJSON_on_the_wire now now' a :
  MarshalJSON now'
    (set_TimeStamp (Some (on_the_wire (default now (TimeStamp a))))
       (set_MetaData (Some (default ∅ (MetaData a))) a))
  = MarshalJSON now a.
Proof.
  unfold MarshalJSON. do 3 f_equal.
  unfold MarshalJSON_payload. cbn -[Format on_the_wire insert].
  rewrite Format_on_the_wire. by destruct (TimeStamp a).
Qed.



(** After the loop [Data] is as it was, or holds the bytes of a member. *)
Lemma range_Data entries : forall a md a1 md1,
  UnmarshalJSON_range entries a md = Done (a1, md1) ->
  Data a1 = Data a \/ exists j, Data a1 = Some (Valid j).
Proof.
  induction entries as [|[key value] rest IH]; intros a md a1 md1; simpl.
  - intros [= <- <-]. by left.
  - destruct (UnmarshalJSON_body_total key value a md) as (a' & md' & Hb).
    rewrite Hb. simpl. intros [Hr|Hr]%IH; [|by right].
    rewrite Hr, (body_Data _ _ _ _ _ _ Hb). destruct (hits "data" (key, value)); eauto.
Qed.

(** X16: the Activity decoded from an object whose keys are valid UTF-8, as
    the keys of a JSON text are, is encoded without error when the [Data] of
    the receiver is not bytes other than a JSON text; and a member of the
    object that is not null and whose key is not recognized is in the object
    written, under its key, with the value that [json.Marshal] writes for the
    generic value the decoder made of it. *)
Theorem metadata_reencoded
    (order : gmap string payload -> list (string * payload))
    (now : Time) (a : Activity) (m : gmap string json) :
  iteration_order order ->
  (forall k, is_Some (m !! k) -> valid_utf8 k = true) ->
  Data a <> Some Invalid ->
  exists a' m', UnmarshalJSON order a (Valid (JObject m)) = Done (a', None)
    /\ MarshalJSON now a' = Some (Valid (JObject m'))
    /\ forall k v, m !! k = Some v -> to_metadata (k, v) = true ->
         MarshalJSON_payload now a' !! k = Some (Unmarshal_interface v)
         /\ m' !! k = Marshal (Unmarshal_interface v)
         /\ is_Some (m' !! k).
Proof.
  intros Ho Hkeys Hdata.
  destruct (UnmarshalJSON_inv order a (Valid (JObject m)) Ho)
    as [(e & [=] & _)|(m' & entries & a1 & md & [= <-] & Hp & Hr & ->)].
  pose proof (UnmarshalJSON_range_metadata_map m entries a a1 md Hp Hr) as ->.
  set (a' := set_MetaData (Some (Unmarshal_interface
                                   <$> filter (fun kv => to_metadata kv = true) m)) a1).
  exists a', (encoded now a'). split; [done|].
  assert (forall k v, m !! k = Some v -> to_metadata (k, v) = true ->
            MarshalJSON_payload now a' !! k = Some (Unmarshal_interface v)) as Hpayload.
  { intros k v Hk Hm. rewrite MarshalJSON_payload_union.
    apply lookup_union_Some_raw. right. split.
    - apply eq_None_not_Some. intros [v' Hv'].
      apply fields_key_recognized in Hv' as [Hrec _].
      apply to_metadata_true in Hm as [_ Hm]. congruence.
    - simpl. rewrite lookup_fmap.
      assert (filter (fun kv => to_metadata kv = true) m !! k = Some v) as ->; [|done].
      by apply map_lookup_filter_Some. }
  split.
  - apply MarshalJSON_encoded.
    + intros k [v Hv]. simpl in Hv. rewrite lookup_fmap in Hv.
      destruct (filter _ m !! k) as [j|] eqn:Hj; [|done].
      apply map_lookup_filter_Some in Hj as [Hj _]. apply Hkeys. by eexists.
    + intros k v Hv. simpl in Hv. rewrite lookup_fmap in Hv.
      destruct (filter _ m !! k) as [j|] eqn:Hj; [|done]. injection Hv as <-.
      apply Marshal_Unmarshal_interface.
    + change (Data a') with (Data a1).
      destruct (range_Data _ _ _ _ _ Hr) as [->|[j ->]]; done.
  - intros k v Hk Hm. split; [by apply Hpayload|].
    rewrite encoded_lookup, (Hpayload k v Hk Hm). simpl.
    split; [done|apply Marshal_Unmarshal_interface].
Qed.

(** A number is written as the [float64] it was read as, in the digits and
    the format of [json.Marshal], and a number out of range as [null]. *)
Example reencode_numbers :
  map (fun lit => Marshal (Unmarshal_interface (JNumber lit)))
    ["12345678901234567890"; "9007199254740993"; "0.10"; "-0"; "1E2"; "1e21";
     "123456789012345678901"; "0.000001"; "0.0000001"; "1.5e-7"; "5e-324";
     "1.7976931348623157e308"; "0.1e1"; "3.14159"; "1e400"; "-1e-400"]
  = map Some
      [JNumber "12345678901234567000"; JNumber "9007199254740992"; JNumber "0.1";
       JNumber "-0"; JNumber "100"; JNumber "1e+21"; JNumber "123456789012345680000";
       JNumber "0.000001"; JNumber "1e-7"; JNumber "1.5e-7"; JNumber "5e-324";
       JNumber "1.7976931348623157e+308"; JNumber "1"; JNumber "3.14159"; JNull;
       JNumber "-0"].
Proof. vm_compute. reflexivity. Qed.

Lemma metadata_reencoded_witness :
  iteration_order map_to_list
  /\ exists a' m',
       UnmarshalJSON map_to_list zero
         (Valid (JObject {["Extra" := JBool true; "n" := JNumber "1e2";
                           "actor" := JString "A"]}))
       = Done (a', None)
       /\ MarshalJSON a_time a' = Some (Valid (JObject m'))
       /\ m' !! "Extra" = Some (JBool true)
       /\ m' !! "n" = Some (JNumber "100").
Proof.
  assert (iteration_order map_to_list) as Ho by (intros m; reflexivity).
  split; [exact Ho|].
  destruct (metadata_reencoded map_to_list a_time zero
              {["Extra" := JBool true; "n" := JNumber "1e2"; "actor" := JString "A"]} Ho)
    as (a' & m' & Hdec & Henc & Hall).
  - intros k [v Hv].
    repeat (apply lookup_insert_Some in Hv as [[<- _]|[_ Hv]]; [reflexivity|]).
    apply lookup_singleton_Some in Hv as [<- _]. reflexivity.
  - discriminate.
  - exists a', m'. split; [exact Hdec|]. split; [exact Henc|].
    split; [apply (Hall "Extra" (JBool true))|apply (Hall "n" (JNumber "1e2"))];
      reflexivity.
Defined.

(** ** The bytes of an Activity *)


(** X18: the bytes that [MarshalJSON] returns are an object which has, under
    every key that is ASCII, what [json.Marshal] writes for the value the
    payload has under that key, and nothing when the payload has none; so
    [actor], [verb], [object], [origin] and [time] are the strings of the
    fields, each byte that is not valid UTF-8 replaced by U+FFFD. *)
Theorem MarshalJSON_object (now : Time) (a : Activity) (b : wire) :
  MarshalJSON now a = Some b ->
  exists m, b = Valid (JObject m)
    /\ (forall k, all_chars (in_range 0 127) k = true ->
          m !! k = MarshalJSON_payload now a !! k ≫= Marshal)
    /\ m !! "actor" = Some (JString (appendString (Actor a)))
    /\ m !! "verb" = Some (JString (appendString (Verb a)))
    /\ m !! "object" = Some (JString (appendString (Object a)))
    /\ m !! "origin" = Some (JString (appendString (Value (Origin a))))
    /\ m !! "time" = Some (JString (Format (default now (TimeStamp a)))).
Proof.
  unfold MarshalJSON. intros (j & Hj & ->)%fmap_Some.
  apply Marshal_Map_lookup in Hj as (m & -> & Hm). exists m. split; [done|].
  split; [exact Hm|].
  destruct (fields_at now a) as (Hactor & Hverb & Hobject & Horigin & _ & _ & _ & _ & Htime & _).
  repeat split; (rewrite Hm by reflexivity);
    [rewrite (payload_lookup_field _ _ _ _ Hactor)
    |rewrite (payload_lookup_field _ _ _ _ Hverb)
    |rewrite (payload_lookup_field _ _ _ _ Hobject)
    |rewrite (payload_lookup_field _ _ _ _ Horigin)
    |rewrite (payload_lookup_field _ _ _ _ Htime)]; try done.
  simpl. by rewrite appendString_Format.
Qed.

Lemma MarshalJSON_object_witness :
  MarshalJSON a_time an_activity = Some (Valid (JObject (encoded a_time an_activity)))
  /\ exists m, Valid (JObject (encoded a_time an_activity)) = Valid (JObject m)
       /\ m !! "actor" = Some (JString "A")
       /\ m !! "time" = Some (JString "2020-01-02T03:04:05.123456").
Proof.
  assert (MarshalJSON a_time an_activity
          = Some (Valid (JObject (encoded a_time an_activity)))) as Henc
    by (vm_compute; reflexivity).
  split; [exact Henc|].
  destruct (MarshalJSON_object a_time an_activity _ Henc)
    as (m & Hb & _ & Hactor & _ & _ & _ & Htime).
  exists m. split; [exact Hb|]. split; [exact Hactor|exact Htime].
Defined.
